(** * J-Tech Digital HDMI matrix integration: the polling coordinator

    A shallow embedding of
    [custom_components/jtechdigital/coordinator.py] (the coordinator the
    integration loads), of [custom_components/jtechdigital/structures.py],
    and of the alternate coordinator kept in [_coordinator.py].

    Python values are modelled as follows: [int] as [Z], [str] as [string],
    [list] as [list], [None]-or-object as [option], a raising computation
    as [result].  The device client ([pyjtechdigital.JtechClient]) is
    outside the repository: one record, [Device], holds what it answers
    during one poll cycle. *)

From Stdlib Require Import ZArith Lia.
From stdpp Require Import base option list strings gmap sorting.

(** ** Exceptions and the error monad *)

(** The exception classes the coordinators name or can provoke.  All are
    subclasses of [Exception]; the four [Jtech*] classes are siblings
    below the client library's base error. *)
Inductive exn : Type :=
  | JtechError
  | JtechAuthError
  | JtechConnectionError
  | JtechConnectionTimeout
  | AttributeError
  | IndexError
  | NameError
  | OtherException
  | ConfigEntryAuthFailed (msg : string)
  | UpdateFailed (msg : string).

Inductive result (A : Type) : Type :=
  | Ok (a : A)
  | Raise (e : exn).
Arguments Ok {A} a.
Arguments Raise {A} e.

#[global] Instance result_ret : MRet result := fun _ a => Ok a.
#[global] Instance result_bind : MBind result := fun _ _ f m =>
  match m with
  | Ok a => f a
  | Raise e => Raise e
  end.

Definition is_ok {A} (r : result A) : bool :=
  match r with Ok _ => true | Raise _ => false end.

(** [isinstance(response, Exception)]: every [exn] is an [Exception]. *)
Definition filter_exception {A} (response : result A) : option A :=
  match response with Ok a => Some a | Raise _ => None end.

(** Methods of a coordinator read and write [self] and may raise: a
    program over a state [S] returns the state it leaves behind together
    with its value or its exception.  State changes made before a raise
    stay, as in Python. *)
Definition prog (S A : Type) : Type := S -> S * result A.

Definition ret {S A} (a : A) : prog S A := fun s => (s, Ok a).

Definition raise {S A} (e : exn) : prog S A := fun s => (s, Raise e).

Definition bind {S A B} (m : prog S A) (k : A -> prog S B) : prog S B :=
  fun s =>
    match m s with
    | (s', Ok a) => k a s'
    | (s', Raise e) => (s', Raise e)
    end.

Definition get {S} : prog S S := fun s => (s, Ok s).

Definition modify {S} (f : S -> S) : prog S unit := fun s => (f s, Ok tt).

Definition lift {S A} (r : result A) : prog S A := fun s => (s, r).

(** [try: body except ...: handler]: the handler receives the exception
    and runs in the state the body left. *)
Definition try_except {S A} (body : prog S A) (handler : exn -> prog S A)
  : prog S A :=
  fun s =>
    match body s with
    | (s', Ok a) => (s', Ok a)
    | (s', Raise e) => handler e s'
    end.

Notation "x <~ m ;; k" := (bind m (fun x => k))
  (at level 100, m at next level, right associativity).
Notation "m ;;; k" := (bind m (fun _ => k))
  (at level 100, right associativity).

(** ** const.py *)

Definition ERROR_CONNECT_FAILED : string := "Failed to connect".
Definition ERROR_FETCH_DATA_FAILED : string := "Failed to fetch data".
Definition ERROR_AUTH_FAILED : string := "Authentication failed".
Definition ERROR_UNKNOWN : string := "Unknown error occurred".

(** ** Python list and attribute primitives *)

(** [l[i]] for [i >= 0]: [IndexError] past the end. *)
Definition py_index {A} (l : list A) (i : nat) : result A :=
  match l !! i with
  | Some x => Ok x
  | None => Raise IndexError
  end.

(** [obj.attr] where [obj] may be [None]. *)
Definition py_getattr {A B} (obj : option A) (attr : A -> B) : result B :=
  match obj with
  | Some a => Ok (attr a)
  | None => Raise AttributeError
  end.

(** [x in l] on a list of ints. *)
Definition py_in (x : Z) (l : list Z) : bool := existsb (Z.eqb x) l.

(** Truthiness of a list: non-empty. *)
Definition truthy {A} (l : list A) : bool :=
  match l with [] => false | _ :: _ => true end.

(** [enumerate(l)], counting from [start]. *)
Fixpoint enumerate_from {A} (start : nat) (l : list A) : list (nat * A) :=
  match l with
  | [] => []
  | x :: rest => (start, x) :: enumerate_from (S start) rest
  end.

Definition enumerate {A} (l : list A) : list (nat * A) := enumerate_from 0 l.

(** A [for] loop whose body may raise: the loop state is threaded through
    and the first exception leaves the loop. *)
Fixpoint for_each {A S} (body : S -> A -> result S) (l : list A) (acc : S)
  : result S :=
  match l with
  | [] => Ok acc
  | x :: rest =>
      match body acc x with
      | Ok acc' => for_each body rest acc'
      | Raise e => Raise e
      end
  end.

(** ** structures.py *)

Module OutputInfo.
Record JtechOutputInfo : Type := mk {
  source : Z;
  name : string;
  cat_name : string;
  connected : bool;
  cat_connected : bool;
  enabled : bool;
  cat_enabled : bool;
  scaler : Z;
  cec_selected : bool
}.
End OutputInfo.

Module SourceInfo.
Record JtechSourceInfo : Type := mk {
  outputs : list Z;
  name : string;
  active : bool;
  edid_index : Z;
  cec_selected : bool
}.
End SourceInfo.

Abbreviation JtechOutputInfo := OutputInfo.JtechOutputInfo.
Abbreviation JtechSourceInfo := SourceInfo.JtechSourceInfo.

(** ** Response objects of the device client

    Only the attributes the coordinators read are kept. *)

Module Status.
Record t : Type := mk {
  power : bool;
  model : string;
  version : string;
  macaddress : string
}.
End Status.

Module SourceStatus.
Record t : Type := mk {
  power : bool;
  source_names : list string;
  active_sources : list bool;
  edid_indexes : list Z
}.
End SourceStatus.

Module OutputStatus.
Record t : Type := mk {
  power : bool;
  output_names : list string;
  selected_sources : list Z;
  output_cat_names : list string;
  connected_outputs : list bool;
  connected_cat_outputs : list bool;
  enabled_outputs : list bool;
  enabled_cat_outputs : list bool;
  selected_output_scalers : list Z
}.
End OutputStatus.

Module CecStatus.
Record t : Type := mk {
  selected_cec_sources : list Z;
  selected_cec_outputs : list Z
}.
End CecStatus.

Module Network.
Record t : Type := mk {
  hostname : string;
  ipaddress : string;
  subnet : string;
  gateway : string;
  macaddress : string;
  dhcp : bool;
  telnetport : Z;
  tcpport : Z
}.
End Network.

Module SystemStatus.
Record t : Type := mk {
  power : bool;
  baudrate_index : Z;
  beep : bool;
  lock : bool;
  mode : Z;
  version : string
}.
End SystemStatus.

Module WebDetails.
Record t : Type := mk { title : string }.
End WebDetails.

(** The dict built by [_fetch_status]: its seven keys are fixed, each
    value is a response object or [None]. *)
Module Statuses.
Record t : Type := mk {
  status : option Status.t;
  source : option SourceStatus.t;
  output : option OutputStatus.t;
  cec : option CecStatus.t;
  network : option Network.t;
  system : option SystemStatus.t;
  web_details : option WebDetails.t
}.
End Statuses.

Module VideoStatus.
Record t : Type := mk {
  power : bool;
  selected_sources : list Z;
  preset_names : list string;
  source_names : list string;
  output_names : list string;
  output_cat_names : list string
}.
End VideoStatus.

(** ** The device client

    A [call] names one method call on the client with its arguments; the
    coordinators append every call they make to a trace.  [Device.t] is
    the environment of one poll cycle or command: what each method
    answers, or the exception it raises. *)
Inductive call : Type :=
  | connect (user password : string)
  | get_status
  | get_source_status
  | get_output_status
  | get_cec_status
  | get_network
  | get_system_status
  | get_web_details
  | get_video_status
  | set_power (on : bool)
  | set_output_stream (output : Z) (on : bool)
  | set_output_cat_stream (output : Z) (on : bool)
  | set_video_source (output source : Z)
  | send_cec_output (output command : Z)
  | send_cec_source (source command : Z)
  | reboot.

Module Device.
Record t : Type := mk {
  on_connect : string -> string -> result unit;
  on_get_status : result Status.t;
  on_get_source_status : result SourceStatus.t;
  on_get_output_status : result OutputStatus.t;
  on_get_cec_status : result CecStatus.t;
  on_get_network : result Network.t;
  on_get_system_status : result SystemStatus.t;
  on_get_web_details : result WebDetails.t;
  on_get_video_status : result VideoStatus.t;
  on_command : call -> result bool;
  _sources_count : Z;
  _outputs_count : Z
}.
End Device.

(** Python values kept in the combined status dict and in attribute
    dictionaries. *)
Inductive value : Type :=
  | VBool (b : bool)
  | VStr (s : string)
  | VInt (z : Z)
  | VStrs (l : list string)
  | VBools (l : list bool)
  | VInts (l : list Z).

(** ** coordinator.py: reconciliation *)

Module Coordinator.

(** Body of the loop of [_handle_output_update]; attribute reads happen in
    the order of the source, so the first failing one decides the
    exception. *)
Definition output_row (output_status : OutputStatus.t)
    (cec_status : option CecStatus.t)
    (outputs_data : list JtechOutputInfo) (item : nat * string)
  : result (list JtechOutputInfo) :=
  let '(idx, output_name) := item in
  source_idx ← py_index (OutputStatus.selected_sources output_status) idx;
  cat_name ← py_index (OutputStatus.output_cat_names output_status) idx;
  connected ← py_index (OutputStatus.connected_outputs output_status) idx;
  cat_connected ← py_index (OutputStatus.connected_cat_outputs output_status) idx;
  enabled ← py_index (OutputStatus.enabled_outputs output_status) idx;
  cat_enabled ← py_index (OutputStatus.enabled_cat_outputs output_status) idx;
  scaler ← py_index (OutputStatus.selected_output_scalers output_status) idx;
  selected ← py_getattr cec_status CecStatus.selected_cec_outputs;
  let cec_selected := py_in (Z.of_nat idx) selected in
  Ok (outputs_data ++
      [OutputInfo.mk source_idx output_name cat_name connected cat_connected
         enabled cat_enabled scaler cec_selected]).

(** [_handle_output_update]: [Ok None] is Python's implicit [return None]
    when the guard fails. *)
Definition _handle_output_update (statuses : Statuses.t)
  : result (option (list JtechOutputInfo)) :=
  let output_status := Statuses.output statuses in
  let cec_status := Statuses.cec statuses in
  match output_status with
  | Some os =>
      if truthy (OutputStatus.output_names os) then
        outputs_data ← for_each (output_row os cec_status)
                         (enumerate (OutputStatus.output_names os)) [];
        Ok (Some outputs_data)
      else Ok None
  | None => Ok None
  end.

(** The inner loop of [_handle_source_update]: output numbers
    ([output_idx + 1]) whose selected source equals [idx]. *)
Definition collect_outputs (idx : nat) (selected_sources : list Z) : list Z :=
  foldl (fun outputs '(output_idx, source) =>
           if Z.eqb source (Z.of_nat idx)
           then outputs ++ [(Z.of_nat output_idx + 1)%Z]
           else outputs)
        [] (enumerate selected_sources).

Definition source_row (source_status : SourceStatus.t)
    (output_status : option OutputStatus.t) (cec_status : option CecStatus.t)
    (sources_data : list JtechSourceInfo) (item : nat * string)
  : result (list JtechSourceInfo) :=
  let '(idx, source_name) := item in
  active ← py_index (SourceStatus.active_sources source_status) idx;
  edid_index ← py_index (SourceStatus.edid_indexes source_status) idx;
  selected ← py_getattr cec_status CecStatus.selected_cec_sources;
  let cec_selected := py_in (Z.of_nat idx) selected in
  selected_sources ← py_getattr output_status OutputStatus.selected_sources;
  let outputs := collect_outputs idx selected_sources in
  Ok (sources_data ++
      [SourceInfo.mk outputs source_name active edid_index cec_selected]).

Definition _handle_source_update (statuses : Statuses.t)
  : result (option (list JtechSourceInfo)) :=
  let output_status := Statuses.output statuses in
  let source_status := Statuses.source statuses in
  let cec_status := Statuses.cec statuses in
  match source_status with
  | Some ss =>
      if truthy (SourceStatus.source_names ss) then
        sources_data ← for_each (source_row ss output_status cec_status)
                         (enumerate (SourceStatus.source_names ss)) [];
        Ok (Some sources_data)
      else Ok None
  | None => Ok None
  end.

(** *** Coordinator state

    [_client] records whether [self._client] has been created;
    [outputs] and [sources] are [option]s because the handlers can hand
    back [None]; [data] is the attribute of [DataUpdateCoordinator] that
    holds the last published record ([None] before the first refresh);
    [calls] is the trace of client calls and [refresh_requests] counts
    calls of [async_request_refresh]. *)
Record t : Type := mk {
  host : string;
  username : string;
  password : string;
  _client : bool;
  connected : bool;
  outputs : option (list JtechOutputInfo);
  sources : option (list JtechSourceInfo);
  data : option (gmap string value);
  calls : list call;
  refresh_requests : nat
}.

Definition set__client (b : bool) (c : t) : t :=
  mk (host c) (username c) (password c) b (connected c) (outputs c)
     (sources c) (data c) (calls c) (refresh_requests c).

Definition set_connected (b : bool) (c : t) : t :=
  mk (host c) (username c) (password c) (_client c) b (outputs c)
     (sources c) (data c) (calls c) (refresh_requests c).

Definition set_outputs (o : option (list JtechOutputInfo)) (c : t) : t :=
  mk (host c) (username c) (password c) (_client c) (connected c) o
     (sources c) (data c) (calls c) (refresh_requests c).

Definition set_sources (s : option (list JtechSourceInfo)) (c : t) : t :=
  mk (host c) (username c) (password c) (_client c) (connected c) (outputs c)
     s (data c) (calls c) (refresh_requests c).

Definition set_data (d : option (gmap string value)) (c : t) : t :=
  mk (host c) (username c) (password c) (_client c) (connected c) (outputs c)
     (sources c) d (calls c) (refresh_requests c).

Definition log_call (k : call) (c : t) : t :=
  mk (host c) (username c) (password c) (_client c) (connected c) (outputs c)
     (sources c) (data c) (calls c ++ [k]) (refresh_requests c).

Definition count_refresh_request (c : t) : t :=
  mk (host c) (username c) (password c) (_client c) (connected c) (outputs c)
     (sources c) (data c) (calls c) (S (refresh_requests c)).

(** [__init__] *)
Definition __init__ (host username password : string) : t :=
  mk host username password false false (Some []) (Some []) None [] 0.

(** A method call on [self._client]: raises [AttributeError] while the
    attribute is still [None], otherwise the call is traced and answers
    [answer]. *)
Definition client_call {A} (k : call) (answer : result A) : prog t A :=
  c <~ get ;;
  if _client c then (modify (log_call k) ;;; lift answer)
  else raise AttributeError.

(** *** Connection *)

Definition _client_connect (dev : Device.t) : prog t unit :=
  c <~ get ;;
  if negb (connected c) then
    try_except
      (client_call (connect (username c) (password c))
         (Device.on_connect dev (username c) (password c)) ;;;
       modify (set_connected true))
      (fun err =>
         match err with
         | JtechAuthError =>
             modify (set_connected false) ;;;
             raise (ConfigEntryAuthFailed ERROR_AUTH_FAILED)
         | JtechConnectionError =>
             modify (set_connected false) ;;;
             raise (UpdateFailed ERROR_CONNECT_FAILED)
         | _ =>
             modify (set_connected false) ;;;
             raise (UpdateFailed ERROR_UNKNOWN)
         end)
  else ret tt.

Definition _client_ensure (dev : Device.t) : prog t unit :=
  c <~ get ;;
  (if negb (_client c) then modify (set__client true) else ret tt) ;;;
  _client_connect dev.

(** *** Fetching

    [asyncio.gather(..., return_exceptions=True)] starts the seven calls
    in list order and hands back each outcome; exceptions become [None]. *)
Definition gathered {A} (k : call) (answer : result A) : prog t (result A) :=
  modify (log_call k) ;;; ret answer.

Definition _fetch_status (dev : Device.t) : prog t Statuses.t :=
  c <~ get ;;
  if negb (_client c) then raise AttributeError else
  r_status <~ gathered get_status (Device.on_get_status dev) ;;
  r_source <~ gathered get_source_status (Device.on_get_source_status dev) ;;
  r_output <~ gathered get_output_status (Device.on_get_output_status dev) ;;
  r_cec <~ gathered get_cec_status (Device.on_get_cec_status dev) ;;
  r_network <~ gathered get_network (Device.on_get_network dev) ;;
  r_system <~ gathered get_system_status (Device.on_get_system_status dev) ;;
  r_web <~ gathered get_web_details (Device.on_get_web_details dev) ;;
  ret (Statuses.mk
         (filter_exception r_status) (filter_exception r_source)
         (filter_exception r_output) (filter_exception r_cec)
         (filter_exception r_network) (filter_exception r_system)
         (filter_exception r_web)).

(** *** The combined record

    [if status:] tests a response object, which is truthy; only [None]
    skips the block. *)

Definition combine_status (status : option Status.t)
    (combined_data : gmap string value) : gmap string value :=
  match status with
  | Some status =>
      <["version" := VStr (Status.version status)]>
        (<["model" := VStr (Status.model status)]>
           (<["power" := VBool (Status.power status)]> combined_data))
  | None => combined_data
  end.

Definition combine_network (network_status : option Network.t)
    (combined_data : gmap string value) : gmap string value :=
  match network_status with
  | Some n =>
      <["tcpport" := VInt (Network.tcpport n)]>
        (<["telnetport" := VInt (Network.telnetport n)]>
           (<["dhcp" := VBool (Network.dhcp n)]>
              (<["macaddress" := VStr (Network.macaddress n)]>
                 (<["gateway" := VStr (Network.gateway n)]>
                    (<["subnet" := VStr (Network.subnet n)]>
                       (<["ipaddress" := VStr (Network.ipaddress n)]>
                          (<["hostname" := VStr (Network.hostname n)]>
                             combined_data)))))))
  | None => combined_data
  end.

Definition combine_system (system_status : option SystemStatus.t)
    (combined_data : gmap string value) : gmap string value :=
  match system_status with
  | Some s =>
      <["mode" := VInt (SystemStatus.mode s)]>
        (<["lock" := VBool (SystemStatus.lock s)]>
           (<["beep" := VBool (SystemStatus.beep s)]>
              (<["baudrate_index" := VInt (SystemStatus.baudrate_index s)]>
                 combined_data)))
  | None => combined_data
  end.

Definition combine_web_details (web_details : option WebDetails.t)
    (combined_data : gmap string value) : gmap string value :=
  match web_details with
  | Some w => <["title" := VStr (WebDetails.title w)]> combined_data
  | None => combined_data
  end.

(** [combined_data = { }] followed by the four guarded blocks. *)
Definition combined_data_of (statuses : Statuses.t) : gmap string value :=
  combine_web_details (Statuses.web_details statuses)
    (combine_system (Statuses.system statuses)
       (combine_network (Statuses.network statuses)
          (combine_status (Statuses.status statuses) ∅))).

(** *** The poll cycle *)

Definition _async_update_data (dev : Device.t)
  : prog t (gmap string value) :=
  _client_ensure dev ;;;
  try_except
    (statuses <~ _fetch_status dev ;;
     outputs_data <~ lift (_handle_output_update statuses) ;;
     modify (set_outputs outputs_data) ;;;
     sources_data <~ lift (_handle_source_update statuses) ;;
     modify (set_sources sources_data) ;;;
     ret (combined_data_of statuses))
    (fun err =>
       match err with
       | JtechAuthError =>
           modify (set_connected false) ;;;
           raise (UpdateFailed ERROR_AUTH_FAILED)
       | _ =>
           modify (set_connected false) ;;;
           raise (UpdateFailed ERROR_FETCH_DATA_FAILED)
       end).

(** The part of [DataUpdateCoordinator] (Home Assistant) that runs a
    cycle: the record returned by [_async_update_data] becomes [data];
    when the cycle raises, [data] is left as it was and the error is
    recorded by the framework. *)
Definition async_refresh (dev : Device.t) (c : t) : t :=
  match _async_update_data dev c with
  | (c', Ok combined_data) => set_data (Some combined_data) c'
  | (c', Raise _) => c'
  end.

(** [DataUpdateCoordinator.async_request_refresh]: a (debounced) request
    for another cycle. *)
Definition async_request_refresh : prog t unit :=
  modify count_refresh_request.

(** *** Command methods *)

Definition async_enable_output (dev : Device.t) (output : Z) : prog t bool :=
  client_call (set_output_stream output true)
    (Device.on_command dev (set_output_stream output true)).

Definition async_enable_cat_output (dev : Device.t) (output : Z)
  : prog t bool :=
  client_call (set_output_cat_stream output true)
    (Device.on_command dev (set_output_cat_stream output true)).

Definition async_disable_output (dev : Device.t) (output : Z) : prog t bool :=
  client_call (set_output_stream output false)
    (Device.on_command dev (set_output_stream output false)).

Definition async_disable_cat_output (dev : Device.t) (output : Z)
  : prog t bool :=
  client_call (set_output_cat_stream output false)
    (Device.on_command dev (set_output_cat_stream output false)).

Definition async_select_source (dev : Device.t) (output source : Z)
  : prog t bool :=
  client_call (set_video_source output source)
    (Device.on_command dev (set_video_source output source)).

Definition async_send_cec_output (dev : Device.t) (output command : Z)
  : prog t bool :=
  client_call (send_cec_output output command)
    (Device.on_command dev (send_cec_output output command)).

Definition async_send_cec_source (dev : Device.t) (source command : Z)
  : prog t bool :=
  client_call (send_cec_source source command)
    (Device.on_command dev (send_cec_source source command)).

Definition async_power_on (dev : Device.t) : prog t bool :=
  client_call (set_power true) (Device.on_command dev (set_power true)).

Definition async_power_off (dev : Device.t) : prog t bool :=
  client_call (set_power false) (Device.on_command dev (set_power false)).

End Coordinator.

(** ** _coordinator.py: the alternate coordinator

    Its instance attributes are many and are assigned one by one, so they
    are kept as the attribute dictionary of the object; an attribute set to
    [None] by [__init__] is absent from the dictionary. *)

Module Legacy.

Record t : Type := mk {
  user : string;
  password : string;
  attrs : gmap string value;
  calls : list call;
  refresh_requests : nat
}.

Definition __init__ (user password : string) : t :=
  mk user password
     (list_to_map
        [("presets_names", VStrs []);
         ("sources_names", VStrs []); ("sources_active", VBools []);
         ("sources_edids", VInts []); ("sources_cec_selected", VInts []);
         ("outputs_names", VStrs []); ("outputs_cat_names", VStrs []);
         ("outputs_connected", VBools []);
         ("outputs_cat_connected", VBools []);
         ("outputs_enabled", VBools []); ("outputs_cat_enabled", VBools []);
         ("outputs_sources", VInts []); ("outputs_scalers", VInts []);
         ("outputs_cec_selected", VInts []);
         ("connected", VBool false)])
     [] 0.

Definition getattr (name : string) (c : t) : option value := attrs c !! name.

Definition setattr (name : string) (v : value) : prog t unit :=
  modify (fun c =>
            mk (user c) (password c) (<[name := v]> (attrs c)) (calls c)
               (refresh_requests c)).

Definition log_call (k : call) (c : t) : t :=
  mk (user c) (password c) (attrs c) (calls c ++ [k]) (refresh_requests c).

Definition client_call {A} (k : call) (answer : result A) : prog t A :=
  modify (log_call k) ;;; lift answer.

Definition async_request_refresh : prog t unit :=
  modify (fun c =>
            mk (user c) (password c) (attrs c) (calls c)
               (S (refresh_requests c))).

(** Truthiness of an attribute that holds a bool, and of a string. *)
Definition is_true (v : option value) : bool :=
  match v with Some (VBool true) => true | _ => false end.

Definition truthy_str (s : string) : bool := negb (String.eqb s "").

Definition when {S} (b : bool) (p : prog S unit) : prog S unit :=
  if b then p else ret tt.

Definition async_update_status (dev : Device.t) : prog t unit :=
  status <~ client_call get_status (Device.on_get_status dev) ;;
  setattr "power" (VBool (Status.power status)) ;;;
  when (truthy_str (Status.model status))
       (setattr "model" (VStr (Status.model status))) ;;;
  when (truthy_str (Status.macaddress status))
       (setattr "mac" (VStr (Status.macaddress status))) ;;;
  when (truthy_str (Status.version status))
       (setattr "version" (VStr (Status.version status))).

Definition async_update_video_status (dev : Device.t) : prog t unit :=
  video_status <~ client_call get_video_status
                    (Device.on_get_video_status dev) ;;
  setattr "power" (VBool (VideoStatus.power video_status)) ;;;
  setattr "outputs_sources"
          (VInts (VideoStatus.selected_sources video_status)) ;;;
  setattr "preset_names" (VStrs (VideoStatus.preset_names video_status)) ;;;
  when (truthy (VideoStatus.source_names video_status))
       (setattr "sources_names"
                (VStrs (VideoStatus.source_names video_status))) ;;;
  when (truthy (VideoStatus.output_names video_status))
       (setattr "outputs_names"
                (VStrs (VideoStatus.output_names video_status))) ;;;
  when (truthy (VideoStatus.output_cat_names video_status))
       (setattr "outputs_cat_names"
                (VStrs (VideoStatus.output_cat_names video_status))).

Definition async_update_output_status (dev : Device.t) : prog t unit :=
  output_status <~ client_call get_output_status
                     (Device.on_get_output_status dev) ;;
  setattr "power" (VBool (OutputStatus.power output_status)) ;;;
  setattr "outputs_sources"
          (VInts (OutputStatus.selected_sources output_status)) ;;;
  setattr "outputs_scalers"
          (VInts (OutputStatus.selected_output_scalers output_status)) ;;;
  setattr "outputs_enabled"
          (VBools (OutputStatus.enabled_outputs output_status)) ;;;
  setattr "outputs_cat_enabled"
          (VBools (OutputStatus.enabled_cat_outputs output_status)) ;;;
  setattr "outputs_connected"
          (VBools (OutputStatus.connected_outputs output_status)) ;;;
  setattr "outputs_cat_connected"
          (VBools (OutputStatus.connected_cat_outputs output_status)) ;;;
  when (truthy (OutputStatus.output_names output_status))
       (setattr "outputs_names"
                (VStrs (OutputStatus.output_names output_status))) ;;;
  when (truthy (OutputStatus.output_cat_names output_status))
       (setattr "outputs_cat_names"
                (VStrs (OutputStatus.output_cat_names output_status))).

Definition async_update_source_status (dev : Device.t) : prog t unit :=
  source_status <~ client_call get_source_status
                     (Device.on_get_source_status dev) ;;
  setattr "power" (VBool (SourceStatus.power source_status)) ;;;
  setattr "sources_edids"
          (VInts (SourceStatus.edid_indexes source_status)) ;;;
  setattr "sources_active"
          (VBools (SourceStatus.active_sources source_status)) ;;;
  when (truthy (SourceStatus.source_names source_status))
       (setattr "sources_names"
                (VStrs (SourceStatus.source_names source_status))).

Definition async_update_system_status (dev : Device.t) : prog t unit :=
  system_status <~ client_call get_system_status
                     (Device.on_get_system_status dev) ;;
  setattr "power" (VBool (SystemStatus.power system_status)) ;;;
  setattr "baudrate_index"
          (VInt (SystemStatus.baudrate_index system_status)) ;;;
  setattr "beep" (VBool (SystemStatus.beep system_status)) ;;;
  setattr "lock" (VBool (SystemStatus.lock system_status)) ;;;
  setattr "mode" (VInt (SystemStatus.mode system_status)) ;;;
  when (truthy_str (SystemStatus.version system_status))
       (setattr "version" (VStr (SystemStatus.version system_status))).

(** [_async_update_data].  The second handler is written [except err:]
    and [err] is bound nowhere: an exception the first handler does not
    match makes Python evaluate that name, which raises [NameError]. *)
Definition _async_update_data (dev : Device.t) : prog t unit :=
  try_except
    (c <~ get ;;
     when (negb (is_true (getattr "connected" c)))
       (try_except
          (client_call (connect (user c) (password c))
             (Device.on_connect dev (user c) (password c)) ;;;
           setattr "connected" (VBool true))
          (fun err =>
             match err with
             | JtechAuthError => raise (ConfigEntryAuthFailed "")
             | _ => raise err
             end) ;;;
        setattr "sources_count" (VInt (Device._sources_count dev)) ;;;
        setattr "outputs_count" (VInt (Device._outputs_count dev)) ;;;
        async_update_status dev) ;;;
     async_update_video_status dev ;;;
     async_update_source_status dev ;;;
     async_update_output_status dev ;;;
     async_update_system_status dev)
    (fun err =>
       match err with
       | JtechConnectionError | JtechConnectionTimeout =>
           setattr "power" (VBool false) ;;;
           setattr "connected" (VBool false)
       | _ => raise NameError
       end).

(** [except JtechError]: the base class of the client library's errors. *)
Definition is_JtechError (e : exn) : bool :=
  match e with
  | JtechError | JtechAuthError | JtechConnectionError
  | JtechConnectionTimeout => true
  | _ => false
  end.

(** The decorator [catch_jtechdigital_errors]: the wrapped call's value
    is dropped, a client error is logged and swallowed, and a refresh is
    requested afterwards. *)
Definition catch_jtechdigital_errors {A} (func : prog t A) : prog t unit :=
  try_except (func ;;; ret tt)
             (fun err => if is_JtechError err then ret tt else raise err) ;;;
  async_request_refresh.

Definition async_turn_on (dev : Device.t) : prog t unit :=
  catch_jtechdigital_errors
    (client_call (set_power true) (Device.on_command dev (set_power true))).

Definition async_turn_off (dev : Device.t) : prog t unit :=
  catch_jtechdigital_errors
    (client_call (set_power false) (Device.on_command dev (set_power false))).

Definition async_reboot_device (dev : Device.t) : prog t unit :=
  catch_jtechdigital_errors
    (client_call reboot (Device.on_command dev reboot)).

Definition async_output_turn_on (dev : Device.t) (output : Z) : prog t unit :=
  catch_jtechdigital_errors
    (client_call (set_output_stream output true)
       (Device.on_command dev (set_output_stream output true)) ;;;
     client_call (set_output_cat_stream output true)
       (Device.on_command dev (set_output_cat_stream output true))).

Definition async_output_turn_off (dev : Device.t) (output : Z) : prog t unit :=
  catch_jtechdigital_errors
    (client_call (set_output_stream output false)
       (Device.on_command dev (set_output_stream output false)) ;;;
     client_call (set_output_cat_stream output false)
       (Device.on_command dev (set_output_cat_stream output false))).

Definition async_output_set_source (dev : Device.t) (output source : Z)
  : prog t unit :=
  catch_jtechdigital_errors
    (client_call (set_video_source output source)
       (Device.on_command dev (set_video_source output source))).

End Legacy.

(** ** Python primitives used by the entities

    [TypeError] and [KeyError] are not among the classes of [exn]; both are
    [OtherException]. *)

(** [l[i]] for any int: a negative index counts from the end. *)
Definition py_index_Z {A} (l : list A) (i : Z) : result A :=
  let n := Z.of_nat (length l) in
  let j := if (i <? 0)%Z then (i + n)%Z else i in
  if (j <? 0)%Z then Raise IndexError else py_index l (Z.to_nat j).

(** [obj[i]] where [obj] is a list or [None]. *)
Definition py_subscript {A} (obj : option (list A)) (i : Z) : result A :=
  match obj with
  | Some l => py_index_Z l i
  | None => Raise OtherException
  end.

(** Truthiness of a value and of a class instance (the dataclasses define
    neither [__bool__] nor [__len__]). *)
Definition truthy_value (v : value) : bool :=
  match v with
  | VBool b => b
  | VStr s => negb (String.eqb s "")
  | VInt z => negb (Z.eqb z 0)
  | VStrs l => truthy l
  | VBools l => truthy l
  | VInts l => truthy l
  end.

Definition truthy_instance {A} (obj : A) : bool := true.

(** [v > 0]: defined for ints and bools. *)
Definition py_gt_zero (v : value) : result bool :=
  match v with
  | VInt z => Ok (0 <? z)%Z
  | VBool b => Ok b
  | _ => Raise OtherException
  end.

(** [if b: p] *)
Definition when {S} (b : bool) (p : prog S unit) : prog S unit :=
  if b then p else ret tt.

(** ** const.py: option keys *)

Definition CONF_HDMI_STREAM_TOGGLE : string := "hdmi_stream_toggle".
Definition CONF_CAT_STREAM_TOGGLE : string := "cat_stream_toggle".
Definition CONF_CEC_SOURCE_TOGGLE : string := "cec_source_toggle".
Definition CONF_CEC_OUTPUT_TOGGLE : string := "cec_output_toggle".
Definition CONF_CEC_DELAY_POWER : string := "cec_delay_power".
Definition CONF_CEC_DELAY_SOURCE : string := "cec_delay_source".
Definition CONF_CEC_VOLUME_CONTROL : string := "cec_volume_control".

(** The four state strings of [homeassistant.const] the entities hand
    back. *)
Definition STATE_OFF : string := "off".
Definition STATE_PLAYING : string := "playing".
Definition STATE_ON : string := "on".
Definition STATE_UNAVAILABLE : string := "unavailable".

(** ** custom_components/jtechdigital/media_player.py

    An entity holds the options of its config entry and a reference to the
    coordinator.  Properties read the coordinator's current state; the
    [async] methods run over a [world]: the coordinator together with the
    delays handed to [asyncio.sleep], in order. *)

Module MediaPlayer.

Record world : Type := mk_world {
  coordinator : Coordinator.t;
  slept : list value
}.

Definition on_coordinator {A} (p : prog Coordinator.t A) : prog world A :=
  fun w =>
    let (c', r) := p (coordinator w) in (mk_world c' (slept w), r).

Definition asyncio_sleep (delay : value) : prog world unit :=
  modify (fun w => mk_world (coordinator w) (slept w ++ [delay])).

(** Reading a property of the entity in the current state. *)
Definition read {A} (property : Coordinator.t -> result A) : prog world A :=
  fun w => (w, property (coordinator w)).

(** [JtechMediaPlayer] *)
Record t : Type := mk {
  _output_index : Z;
  options : gmap string value
}.

(** [self._config_entry.options.get(key, fallback)] *)
Definition options_get (self : t) (key : string) (fallback : value) : value :=
  default fallback (options self !! key).

Definition _get_output_info (self : t) (c : Coordinator.t)
  : result JtechOutputInfo :=
  py_subscript (Coordinator.outputs c) (_output_index self - 1).

Definition _get_source_info (self : t) (c : Coordinator.t)
  : result (option JtechSourceInfo) :=
  output_info ← _get_output_info self c;
  if truthy_instance output_info then
    source_info ← py_subscript (Coordinator.sources c)
                    (OutputInfo.source output_info - 1);
    Ok (Some source_info)
  else Ok None.

Definition _get_hdmi_stream_toggle (self : t) : value :=
  options_get self CONF_HDMI_STREAM_TOGGLE (VBool false).

Definition _get_cat_stream_toggle (self : t) : value :=
  options_get self CONF_CAT_STREAM_TOGGLE (VBool false).

Definition _get_cec_delay_power (self : t) : value :=
  options_get self CONF_CEC_DELAY_POWER (VInt 0).

Definition _get_cec_delay_source (self : t) : value :=
  options_get self CONF_CEC_DELAY_SOURCE (VInt 0).

Definition _get_cec_source_toggle (self : t) : value :=
  options_get self CONF_CEC_SOURCE_TOGGLE (VBool false).

Definition _get_cec_output_toggle (self : t) : value :=
  options_get self CONF_CEC_OUTPUT_TOGGLE (VBool false).

Definition _get_cec_volume_control (self : t) : value :=
  options_get self CONF_CEC_VOLUME_CONTROL (VStr "none").

Definition _get_output_state (self : t) (output_info : JtechOutputInfo)
  : bool :=
  let hdmi_stream_toggle := _get_hdmi_stream_toggle self in
  let cat_stream_toggle := _get_cat_stream_toggle self in
  if truthy_value cat_stream_toggle && truthy_value hdmi_stream_toggle then
    if OutputInfo.cat_connected output_info
       && OutputInfo.cat_enabled output_info
       && OutputInfo.connected output_info
       && OutputInfo.enabled output_info
    then true
    else false
  else
    if truthy_value cat_stream_toggle
       && (OutputInfo.cat_connected output_info
           && OutputInfo.cat_enabled output_info)
    then true
    else if truthy_value hdmi_stream_toggle
            && (OutputInfo.connected output_info
                && OutputInfo.enabled output_info)
    then true
    else true.

(** The [state] property. *)
Definition state (self : t) (c : Coordinator.t) : result string :=
  output_info ← _get_output_info self c;
  if truthy_instance output_info then
    if _get_output_state self output_info then
      source_info ← _get_source_info self c;
      match source_info with
      | Some info =>
          if truthy_instance info && SourceInfo.active info
          then Ok STATE_PLAYING
          else Ok STATE_ON
      | None => Ok STATE_ON
      end
    else Ok STATE_OFF
  else Ok STATE_UNAVAILABLE.

(** The [source_list] property; iterating [None] is a [TypeError]. *)
Definition source_list (self : t) (c : Coordinator.t) : result (list string) :=
  match Coordinator.sources c with
  | Some sources => Ok (SourceInfo.name <$> sources)
  | None => Raise OtherException
  end.

(** The [source] property. *)
Definition source (self : t) (c : Coordinator.t) : result (option string) :=
  output_info ← _get_output_info self c;
  if truthy_instance output_info then
    source_info ← _get_source_info self c;
    match source_info with
    | Some info =>
        if truthy_instance info then Ok (Some (SourceInfo.name info))
        else Ok None
    | None => Ok None
    end
  else Ok None.

(** The loop of [async_select_source]: the first source of that name is
    selected by its number, and the loop is left. *)
Fixpoint select_first (dev : Device.t) (self : t) (source : string)
    (sources : list (nat * JtechSourceInfo)) : prog Coordinator.t unit :=
  match sources with
  | [] => ret tt
  | (source_idx, source_info) :: rest =>
      if String.eqb (SourceInfo.name source_info) source then
        Coordinator.async_select_source dev (_output_index self)
          (Z.of_nat source_idx + 1) ;;;
        ret tt
      else select_first dev self source rest
  end.

Definition async_select_source (dev : Device.t) (self : t) (source : string)
  : prog world unit :=
  on_coordinator
    (c <~ get ;;
     match Coordinator.sources c with
     | Some sources => select_first dev self source (enumerate sources)
     | None => raise OtherException
     end) ;;;
  on_coordinator Coordinator.async_request_refresh.

Definition _async_send_cec_source (dev : Device.t) (self : t)
    (source_command : Z) : prog world unit :=
  output_info <~ read (_get_output_info self) ;;
  when (truthy_instance output_info)
    (on_coordinator
       (Coordinator.async_send_cec_source dev
          (OutputInfo.source output_info) source_command) ;;;
     ret tt).

(** [if delay and delay > 0: await asyncio.sleep(delay)] *)
Definition sleep_if_positive (delay : value) : prog world unit :=
  positive <~ lift (if truthy_value delay then py_gt_zero delay
                    else Ok false) ;;
  when positive (asyncio_sleep delay).

Definition async_turn_on (dev : Device.t) (self : t) : prog world unit :=
  let hdmi_stream_toggle := truthy_value (_get_hdmi_stream_toggle self) in
  let cat_stream_toggle := truthy_value (_get_cat_stream_toggle self) in
  when hdmi_stream_toggle
    (on_coordinator
       (Coordinator.async_enable_output dev (_output_index self)) ;;;
     ret tt) ;;;
  when cat_stream_toggle
    (on_coordinator
       (Coordinator.async_enable_cat_output dev (_output_index self)) ;;;
     ret tt) ;;;
  let cec_source_toggle := truthy_value (_get_cec_source_toggle self) in
  let cec_output_toggle := truthy_value (_get_cec_output_toggle self) in
  when ((cec_source_toggle || cec_output_toggle)
        && (hdmi_stream_toggle || cat_stream_toggle))
    (sleep_if_positive (_get_cec_delay_power self)) ;;;
  when cec_output_toggle (_async_send_cec_source dev self 1) ;;;
  when cec_output_toggle
    (on_coordinator
       (Coordinator.async_send_cec_output dev (_output_index self) 0) ;;;
     ret tt) ;;;
  when cec_output_toggle
    (sleep_if_positive (_get_cec_delay_source self) ;;;
     on_coordinator
       (Coordinator.async_send_cec_output dev (_output_index self) 5) ;;;
     ret tt) ;;;
  on_coordinator Coordinator.async_request_refresh.

Definition async_turn_off (dev : Device.t) (self : t) : prog world unit :=
  let cec_source_toggle := truthy_value (_get_cec_source_toggle self) in
  let cec_output_toggle := truthy_value (_get_cec_output_toggle self) in
  when cec_output_toggle
    (on_coordinator
       (Coordinator.async_send_cec_output dev (_output_index self) 1) ;;;
     ret tt) ;;;
  when cec_source_toggle (_async_send_cec_source dev self 2) ;;;
  when (cec_source_toggle || cec_output_toggle)
    (sleep_if_positive (_get_cec_delay_power self)) ;;;
  let hdmi_stream_toggle := truthy_value (_get_hdmi_stream_toggle self) in
  let cat_stream_toggle := truthy_value (_get_cat_stream_toggle self) in
  when hdmi_stream_toggle
    (on_coordinator
       (Coordinator.async_disable_output dev (_output_index self)) ;;;
     ret tt) ;;;
  when cat_stream_toggle
    (on_coordinator
       (Coordinator.async_disable_cat_output dev (_output_index self)) ;;;
     ret tt) ;;;
  on_coordinator Coordinator.async_request_refresh.

(** [cec_volume_control == "output"]: equality of a value with a str. *)
Definition is_str (v : value) (s : string) : bool :=
  match v with
  | VStr s' => String.eqb s' s
  | _ => false
  end.

Definition _async_volume_send_cec (dev : Device.t) (self : t)
    (output_command source_command : Z) : prog world unit :=
  let cec_volume_control := _get_cec_volume_control self in
  if is_str cec_volume_control "output" then
    on_coordinator
      (Coordinator.async_send_cec_output dev (_output_index self)
         output_command) ;;;
    ret tt
  else if is_str cec_volume_control "source" then
    _async_send_cec_source dev self source_command
  else ret tt.

Definition async_volume_up (dev : Device.t) (self : t) : prog world unit :=
  _async_volume_send_cec dev self 4 19.

Definition async_volume_down (dev : Device.t) (self : t) : prog world unit :=
  _async_volume_send_cec dev self 3 18.

Definition async_volume_mute (dev : Device.t) (self : t) : prog world unit :=
  _async_volume_send_cec dev self 2 17.

Definition async_media_previous_track (dev : Device.t) (self : t)
  : prog world unit := _async_send_cec_source dev self 10.

Definition async_media_next_track (dev : Device.t) (self : t)
  : prog world unit := _async_send_cec_source dev self 12.

Definition async_media_play (dev : Device.t) (self : t) : prog world unit :=
  _async_send_cec_source dev self 11.

Definition async_media_stop (dev : Device.t) (self : t) : prog world unit :=
  _async_send_cec_source dev self 16.

Definition async_media_pause (dev : Device.t) (self : t) : prog world unit :=
  _async_send_cec_source dev self 14.

(** [JtechMasterMediaPlayer] *)
Module Master.

(** The [state] property: [data.get("power", None)]. *)
Definition state (c : Coordinator.t) : result string :=
  match Coordinator.data c with
  | None => Raise AttributeError
  | Some data =>
      match data !! "power" with
      | None => Ok STATE_UNAVAILABLE
      | Some power =>
          if truthy_value power then Ok STATE_ON else Ok STATE_OFF
      end
  end.

Definition async_turn_on (dev : Device.t) : prog Coordinator.t unit :=
  Coordinator.async_power_on dev ;;;
  Coordinator.async_request_refresh.

Definition async_turn_off (dev : Device.t) : prog Coordinator.t unit :=
  Coordinator.async_power_off dev ;;;
  Coordinator.async_request_refresh.

End Master.

(** An entity of the platform: the player of one output, or the master. *)
Inductive entity : Type :=
  | Player (player : t)
  | MasterPlayer (entry_options : gmap string value).

(** The entities [async_setup_entry] creates once the first refresh has
    run: one player per element of [coordinator.outputs], numbered from 1,
    then the master.  Enumerating [None] is a [TypeError]. *)
Definition async_setup_entry (entry_options : gmap string value)
    (c : Coordinator.t) : result (list entity) :=
  match Coordinator.outputs c with
  | Some outputs =>
      Ok (((fun '(output_idx, output_info) =>
              Player (mk (Z.of_nat output_idx + 1) entry_options))
             <$> enumerate outputs)
          ++ [MasterPlayer entry_options])
  | None => Raise OtherException
  end.

End MediaPlayer.

(** ** _coordinator.py: the lookups, and _entity.py

    [validate_output] and [validate_source] are methods of the client; they
    are taken as what they answer for the given number. *)

Module LegacyInfo.

(** Reading an attribute that holds a list. *)
Definition attr_ints (name : string) (c : Legacy.t) : result (list Z) :=
  match Legacy.getattr name c with
  | Some (VInts l) => Ok l
  | Some _ => Raise OtherException
  | None => Raise AttributeError
  end.

Definition attr_strs (name : string) (c : Legacy.t) : result (list string) :=
  match Legacy.getattr name c with
  | Some (VStrs l) => Ok l
  | Some _ => Raise OtherException
  | None => Raise AttributeError
  end.

Definition attr_bools (name : string) (c : Legacy.t) : result (list bool) :=
  match Legacy.getattr name c with
  | Some (VBools l) => Ok l
  | Some _ => Raise OtherException
  | None => Raise AttributeError
  end.

(** [get_output_info].  The arguments of the constructor are evaluated in
    order; the seventh subscripts with [outoutput_arr_indexput], a name
    bound nowhere. *)
Definition get_output_info (validate_output : Z -> result unit) (output : Z)
    (c : Legacy.t) : result JtechOutputInfo :=
  _ ← validate_output output;
  let output_arr_index := (output - 1)%Z in
  outputs_sources ← attr_ints "outputs_sources" c;
  source ← py_index_Z outputs_sources output_arr_index;
  outputs_names ← attr_strs "outputs_names" c;
  name ← py_index_Z outputs_names output_arr_index;
  outputs_cat_names ← attr_strs "outputs_cat_names" c;
  cat_name ← py_index_Z outputs_cat_names output_arr_index;
  outputs_connected ← attr_bools "outputs_connected" c;
  connected ← py_index_Z outputs_connected output_arr_index;
  outputs_cat_connected ← attr_bools "outputs_cat_connected" c;
  cat_connected ← py_index_Z outputs_cat_connected output_arr_index;
  outputs_enabled ← attr_bools "outputs_enabled" c;
  enabled ← py_index_Z outputs_enabled output_arr_index;
  outputs_cat_enabled ← attr_bools "outputs_cat_enabled" c;
  Raise NameError.

(** The loop of [get_source_info]: positions of [outputs_sources] that hold
    [source]. *)
Definition positions_of (source : Z) (outputs_sources : list Z) : list Z :=
  foldl (fun outputs '(_output, _source) =>
           if Z.eqb _source source
           then outputs ++ [Z.of_nat _output]
           else outputs)
        [] (enumerate outputs_sources).

Definition get_source_info (validate_source : Z -> result unit) (source : Z)
    (c : Legacy.t) : result JtechSourceInfo :=
  _ ← validate_source source;
  let source_arr_index := (source - 1)%Z in
  outputs_sources ← attr_ints "outputs_sources" c;
  let outputs := positions_of source outputs_sources in
  sources_names ← attr_strs "sources_names" c;
  name ← py_index_Z sources_names source_arr_index;
  sources_active ← attr_bools "sources_active" c;
  active ← py_index_Z sources_active source_arr_index;
  sources_edids ← attr_ints "sources_edids" c;
  edid_index ← py_index_Z sources_edids source_arr_index;
  sources_cec_selected ← attr_ints "sources_cec_selected" c;
  Ok (SourceInfo.mk outputs name active edid_index
        (py_in source sources_cec_selected)).

(** [JtechEntity] of _entity.py: an entity of output [_output]. *)
Module JtechEntity.

Definition _output_info (validate_output : Z -> result unit) (_output : Z)
    (c : Legacy.t) : result JtechOutputInfo :=
  get_output_info validate_output _output c.

Definition async_turn_on (dev : Device.t) (_output : Z) : prog Legacy.t unit :=
  Legacy.async_output_turn_on dev _output.

Definition async_turn_off (dev : Device.t) (_output : Z) : prog Legacy.t unit :=
  Legacy.async_output_turn_off dev _output.

End JtechEntity.

End LegacyInfo.

Import Coordinator.

(** * Vocabulary of the statements *)

(** ** The cycle in closed form *)

(** The inner loop, unrolled: what [collect_outputs] appends when the
    enumeration starts at [start]. *)
Fixpoint routed_from (idx start : nat) (selected_sources : list Z) : list Z :=
  match selected_sources with
  | [] => []
  | source :: rest =>
      if Z.eqb source (Z.of_nat idx)
      then (Z.of_nat start + 1)%Z :: routed_from idx (S start) rest
      else routed_from idx (S start) rest
  end.

(** The dict [_fetch_status] builds from one device. *)
Definition statuses_of (dev : Device.t) : Statuses.t :=
  Statuses.mk
    (filter_exception (Device.on_get_status dev))
    (filter_exception (Device.on_get_source_status dev))
    (filter_exception (Device.on_get_output_status dev))
    (filter_exception (Device.on_get_cec_status dev))
    (filter_exception (Device.on_get_network dev))
    (filter_exception (Device.on_get_system_status dev))
    (filter_exception (Device.on_get_web_details dev)).

(** The seven calls of one fetch, in the order they are started. *)
Definition fetch_calls : list call :=
  [get_status; get_source_status; get_output_status; get_cec_status;
   get_network; get_system_status; get_web_details].

(** Two coordinator states that differ at most in the trace of calls. *)
Definition same_but_calls (c c' : t) : Prop :=
  host c' = host c /\ username c' = username c /\ password c' = password c /\
  _client c' = _client c /\ connected c' = connected c /\
  outputs c' = outputs c /\ sources c' = sources c /\ data c' = data c /\
  refresh_requests c' = refresh_requests c.

(** The exception the [try] of [_async_update_data] turns [err] into. *)
Definition update_failed (err : exn) : exn :=
  match err with
  | JtechAuthError => UpdateFailed ERROR_AUTH_FAILED
  | _ => UpdateFailed ERROR_FETCH_DATA_FAILED
  end.

(** Reconciliation after a fetch, from the state [c1] the fetch left. *)
Definition reconciled (statuses : Statuses.t) (c1 : t)
  : t * result (gmap string value) :=
  match _handle_output_update statuses with
  | Raise err => (set_connected false c1, Raise (update_failed err))
  | Ok outputs_data =>
      match _handle_source_update statuses with
      | Raise err =>
          (set_connected false (set_outputs outputs_data c1),
           Raise (update_failed err))
      | Ok sources_data =>
          (set_sources sources_data (set_outputs outputs_data c1),
           Ok (combined_data_of statuses))
      end
  end.

(** Every per-output array has an entry for each of the first [n]
    outputs; likewise for the per-source arrays. *)
Definition output_arrays_cover (n : nat) (os : OutputStatus.t) : Prop :=
  n <= length (OutputStatus.selected_sources os) /\
  n <= length (OutputStatus.output_cat_names os) /\
  n <= length (OutputStatus.connected_outputs os) /\
  n <= length (OutputStatus.connected_cat_outputs os) /\
  n <= length (OutputStatus.enabled_outputs os) /\
  n <= length (OutputStatus.enabled_cat_outputs os) /\
  n <= length (OutputStatus.selected_output_scalers os).

Definition source_arrays_cover (n : nat) (ss : SourceStatus.t) : Prop :=
  n <= length (SourceStatus.active_sources ss) /\
  n <= length (SourceStatus.edid_indexes ss).

(** ** Statements of the spec, as predicates *)

(** The scenario of the spec: what the first two outputs hold and which
    outputs the first two sources list. *)
Definition scenario_result (outs : list JtechOutputInfo)
    (srcs : list JtechSourceInfo) (of_source0 of_source1 : list Z) : Prop :=
  (exists o0 o1, outs !! 0 = Some o0 /\ outs !! 1 = Some o1 /\
     OutputInfo.name o0 = "TV1" /\ OutputInfo.source o0 = 1%Z /\
     OutputInfo.cec_selected o0 = true /\
     OutputInfo.name o1 = "TV2" /\ OutputInfo.source o1 = 0%Z /\
     OutputInfo.cec_selected o1 = false) /\
  (exists s0 s1, srcs !! 0 = Some s0 /\ srcs !! 1 = Some s1 /\
     SourceInfo.outputs s0 = of_source0 /\ SourceInfo.outputs s1 = of_source1).

(** The part of the scenario that does not depend on how outputs are
    numbered in the source list: what the first two outputs hold, and the
    two sources by name. *)
Definition scenario_outputs (outs : list JtechOutputInfo)
    (srcs : list JtechSourceInfo) : Prop :=
  (exists o0 o1, outs !! 0 = Some o0 /\ outs !! 1 = Some o1 /\
     OutputInfo.name o0 = "TV1" /\ OutputInfo.source o0 = 1%Z /\
     OutputInfo.cec_selected o0 = true /\
     OutputInfo.name o1 = "TV2" /\ OutputInfo.source o1 = 0%Z /\
     OutputInfo.cec_selected o1 = false) /\
  SourceInfo.name <$> srcs = ["Blu-ray"; "Game"].

(** The inverse mapping under one numbering for both directions: list
    position [p] is number [p + base] ([base] 0 or 1). *)
Definition inverse_mapping (base : Z) (outs : list JtechOutputInfo)
    (srcs : list JtechSourceInfo) : Prop :=
  forall (s : nat) src, srcs !! s = Some src ->
    forall o : nat,
      (Z.of_nat o + base)%Z ∈ SourceInfo.outputs src <->
      exists out, outs !! o = Some out /\
        OutputInfo.source out = (Z.of_nat s + base)%Z.

(** Every routed source is a 1-based index into the source list. *)
Definition sources_valid (outs : list JtechOutputInfo)
    (srcs : list JtechSourceInfo) : Prop :=
  Forall (fun o => (1 <= OutputInfo.source o <= Z.of_nat (length srcs))%Z) outs.

(** A command is a passthrough of the client call [k] from state [c]: the
    trace grows by exactly [k], the value or exception is the client's
    own, no refresh is requested and nothing else changes. *)
Definition passthrough (dev : Device.t) (command : prog t bool) (k : call)
    (c : t) : Prop :=
  let (c', r) := command c in
  calls c' = calls c ++ [k] /\
  r = Device.on_command dev k /\
  refresh_requests c' = refresh_requests c /\
  same_but_calls c c'.

(** The value a key takes from its owning fetch. *)
Definition fetched_field {A} (answer : result A) (field : A -> value)
  : option value :=
  match answer with
  | Ok a => Some (field a)
  | Raise _ => None
  end.

(** ** Devices and states used as concrete inputs *)

(** The answers of a matrix with two outputs and two sources: the scenario
    of the spec, completed with values for the arrays it leaves open. *)
Definition tv_status : Status.t :=
  Status.mk true "MX44" "1.0.3" "00:11:22:33:44:55".
Definition tv_sources : SourceStatus.t :=
  SourceStatus.mk true ["Blu-ray"; "Game"] [true; false] [1; 2]%Z.
Definition tv_outputs : OutputStatus.t :=
  OutputStatus.mk true ["TV1"; "TV2"] [1; 0]%Z ["CAT1"; "CAT2"]
    [true; true] [true; false] [true; true] [true; false] [0; 0]%Z.
Definition tv_cec : CecStatus.t := CecStatus.mk [] [0%Z].
Definition tv_network : Network.t :=
  Network.mk "matrix" "192.168.1.50" "255.255.255.0" "192.168.1.1"
    "00:11:22:33:44:55" true 23 8000.
Definition tv_system : SystemStatus.t :=
  SystemStatus.mk true 2 true false 0 "1.0.3".
Definition tv_web : WebDetails.t := WebDetails.mk "HDMI Matrix".
Definition tv_video : VideoStatus.t :=
  VideoStatus.mk true [1; 0]%Z [] ["Blu-ray"; "Game"] ["TV1"; "TV2"]
    ["CAT1"; "CAT2"].

(** A device that answers every call. *)
Definition tv_device : Device.t :=
  Device.mk (fun _ _ => Ok tt) (Ok tv_status) (Ok tv_sources) (Ok tv_outputs)
    (Ok tv_cec) (Ok tv_network) (Ok tv_system) (Ok tv_web) (Ok tv_video)
    (fun _ => Ok true) 2 2.

(** What reconciliation yields on [tv_device]. *)
Definition tv_reconciled_outputs : list JtechOutputInfo :=
  [OutputInfo.mk 1 "TV1" "CAT1" true true true true 0 true;
   OutputInfo.mk 0 "TV2" "CAT2" true false true false 0 false].

Definition tv_reconciled_sources : list JtechSourceInfo :=
  [SourceInfo.mk [2%Z] "Blu-ray" true 1 false;
   SourceInfo.mk [1%Z] "Game" false 2 false].

(** The same device routing source 1 to output 1 and source 2 to output 2,
    in the 1-based numbering the entities use. *)
Definition routed_outputs : OutputStatus.t :=
  OutputStatus.mk true ["TV1"; "TV2"] [1; 2]%Z ["CAT1"; "CAT2"]
    [true; true] [true; false] [true; true] [true; false] [0; 0]%Z.

Definition routed_device : Device.t :=
  Device.mk (fun _ _ => Ok tt) (Ok tv_status) (Ok tv_sources)
    (Ok routed_outputs) (Ok tv_cec) (Ok tv_network) (Ok tv_system)
    (Ok tv_web) (Ok tv_video) (fun _ => Ok true) 2 2.

(** The fetch of the output status raises; every other call answers. *)
Definition no_output_device : Device.t :=
  Device.mk (fun _ _ => Ok tt) (Ok tv_status) (Ok tv_sources)
    (Raise JtechConnectionTimeout) (Ok tv_cec) (Ok tv_network) (Ok tv_system)
    (Ok tv_web) (Ok tv_video) (fun _ => Ok true) 2 2.

(** Every call answers, but the source status carries one activity flag
    for two source names. *)
Definition short_sources : SourceStatus.t :=
  SourceStatus.mk true ["Blu-ray"; "Game"] [true] [1; 2]%Z.

Definition short_sources_device : Device.t :=
  Device.mk (fun _ _ => Ok tt) (Ok tv_status) (Ok short_sources)
    (Ok tv_outputs) (Ok tv_cec) (Ok tv_network) (Ok tv_system) (Ok tv_web)
    (Ok tv_video) (fun _ => Ok true) 2 2.

(** The fetch of the device status raises; every other call answers. *)
Definition no_status_device : Device.t :=
  Device.mk (fun _ _ => Ok tt) (Raise JtechError) (Ok tv_sources)
    (Ok tv_outputs) (Ok tv_cec) (Ok tv_network) (Ok tv_system) (Ok tv_web)
    (Ok tv_video) (fun _ => Ok true) 2 2.

(** The device cannot be reached: [connect] raises. *)
Definition unreachable_device : Device.t :=
  Device.mk (fun _ _ => Raise JtechConnectionError)
    (Raise JtechConnectionError) (Raise JtechConnectionError)
    (Raise JtechConnectionError) (Raise JtechConnectionError)
    (Raise JtechConnectionError) (Raise JtechConnectionError)
    (Raise JtechConnectionError) (Raise JtechConnectionError)
    (fun _ => Raise JtechConnectionError) 0 0.

(** Credentials are refused: [connect] raises the authentication error. *)
Definition locked_device : Device.t :=
  Device.mk (fun _ _ => Raise JtechAuthError) (Ok tv_status) (Ok tv_sources)
    (Ok tv_outputs) (Ok tv_cec) (Ok tv_network) (Ok tv_system) (Ok tv_web)
    (Ok tv_video) (fun _ => Ok true) 2 2.

(** The coordinator as [__init__] leaves it. *)
Definition fresh : t := __init__ "192.168.1.50" "admin" "secret".

(** ** Further vocabulary: the cycle, its keys and its callers *)

(** The keys the combined record can hold. *)
Definition combined_keys : list string :=
  ["power"; "model"; "version";
   "hostname"; "ipaddress"; "subnet"; "gateway"; "macaddress"; "dhcp";
   "telnetport"; "tcpport";
   "baudrate_index"; "beep"; "lock"; "mode";
   "title"].

(** [dev] with other answers for the four fetches that only feed the
    combined record. *)
Definition with_scalars (dev : Device.t) (status : result Status.t)
    (network : result Network.t) (system : result SystemStatus.t)
    (web_details : result WebDetails.t) : Device.t :=
  Device.mk (Device.on_connect dev) status (Device.on_get_source_status dev)
    (Device.on_get_output_status dev) (Device.on_get_cec_status dev)
    network system web_details (Device.on_get_video_status dev)
    (Device.on_command dev) (Device._sources_count dev)
    (Device._outputs_count dev).

(** The answer of a fetch carries no name: it raised, or its name array
    is empty. *)
Definition no_names {A} (answer : result A) (names : A -> list string)
  : Prop :=
  match answer with
  | Ok a => names a = []
  | Raise _ => True
  end.

(** Every call answers but the CEC fetch. *)
Definition no_cec_device : Device.t :=
  Device.mk (fun _ _ => Ok tt) (Ok tv_status) (Ok tv_sources) (Ok tv_outputs)
    (Raise JtechError) (Ok tv_network) (Ok tv_system) (Ok tv_web)
    (Ok tv_video) (fun _ => Ok true) 2 2.

(** A device whose output and source statuses carry no name. *)
Definition nameless_device : Device.t :=
  Device.mk (fun _ _ => Ok tt) (Ok tv_status)
    (Ok (SourceStatus.mk true [] [] []))
    (Ok (OutputStatus.mk true [] [] [] [] [] [] [] []))
    (Raise JtechError) (Ok tv_network) (Ok tv_system) (Ok tv_web)
    (Ok tv_video) (fun _ => Ok true) 0 0.

(** A program of the alternate coordinator that, from any state, adds
    only calls satisfying [P] to the trace, writes no attribute outside
    [K], and leaves the credentials and the refresh count alone. *)
Definition touches {A} (K : list string) (P : call -> Prop)
    (p : prog Legacy.t A) : Prop :=
  forall lc,
    Legacy.user (fst (p lc)) = Legacy.user lc /\
    Legacy.password (fst (p lc)) = Legacy.password lc /\
    Legacy.refresh_requests (fst (p lc)) = Legacy.refresh_requests lc /\
    (exists new, Legacy.calls (fst (p lc)) = Legacy.calls lc ++ new /\
                 Forall P new) /\
    forall k, k ∉ K -> Legacy.getattr k (fst (p lc)) = Legacy.getattr k lc.

(** The attributes a cycle of the alternate coordinator can write. *)
Definition legacy_cycle_keys : list string :=
  ["power"; "model"; "mac"; "version"; "baudrate_index"; "beep"; "lock";
   "mode"; "preset_names"; "sources_names"; "sources_active";
   "sources_edids"; "outputs_names"; "outputs_cat_names";
   "outputs_connected"; "outputs_cat_connected"; "outputs_enabled";
   "outputs_cat_enabled"; "outputs_sources"; "outputs_scalers";
   "connected"; "sources_count"; "outputs_count"].

(** The calls a cycle of the alternate coordinator can make. *)
Definition legacy_cycle_call (k : call) : Prop :=
  match k with
  | connect _ _ | get_status | get_video_status | get_source_status
  | get_output_status | get_system_status => True
  | _ => False
  end.

(** The fetches of one cycle of the alternate coordinator, in order. *)
Definition legacy_fetches (was_connected : bool) (user password : string)
  : list call :=
  (if was_connected then [] else [connect user password; get_status]) ++
  [get_video_status; get_source_status; get_output_status;
   get_system_status].

(** The alternate coordinator after a first cycle on [tv_device]. *)
Definition legacy_fresh : Legacy.t := Legacy.__init__ "admin" "secret".

Definition legacy_after_tv : Legacy.t :=
  fst (Legacy._async_update_data tv_device legacy_fresh).

(** [tv_device] whose output stream command fails with [JtechError]. *)
Definition failing_stream_device : Device.t :=
  Device.mk (fun _ _ => Ok tt) (Ok tv_status) (Ok tv_sources) (Ok tv_outputs)
    (Ok tv_cec) (Ok tv_network) (Ok tv_system) (Ok tv_web) (Ok tv_video)
    (fun k => match k with
              | set_output_stream _ _ => Raise JtechError
              | _ => Ok true
              end) 2 2.

(** The attributes each fetch of the alternate coordinator can write. *)
Definition status_keys : list string := ["power"; "model"; "mac"; "version"].

Definition video_keys : list string :=
  ["power"; "outputs_sources"; "preset_names"; "sources_names";
   "outputs_names"; "outputs_cat_names"].

Definition source_keys : list string :=
  ["power"; "sources_edids"; "sources_active"; "sources_names"].

Definition output_keys : list string :=
  ["power"; "outputs_sources"; "outputs_scalers"; "outputs_enabled";
   "outputs_cat_enabled"; "outputs_connected"; "outputs_cat_connected";
   "outputs_names"; "outputs_cat_names"].

Definition system_keys : list string :=
  ["power"; "baudrate_index"; "beep"; "lock"; "mode"; "version"].

(** A device whose output and video statuses report no output name. *)
Definition silent_outputs : OutputStatus.t :=
  OutputStatus.mk true [] [1; 0]%Z [] [true; true] [true; false]
    [true; true] [true; false] [0; 0]%Z.

Definition silent_video : VideoStatus.t :=
  VideoStatus.mk true [1; 0]%Z [] [] [] [].

Definition silent_names_device : Device.t :=
  Device.mk (fun _ _ => Ok tt) (Ok tv_status) (Ok tv_sources)
    (Ok silent_outputs) (Ok tv_cec) (Ok tv_network) (Ok tv_system)
    (Ok tv_web) (Ok silent_video) (fun _ => Ok true) 2 2.

(** The loop of [get_source_info], unrolled from position [start]. *)
Fixpoint positions_from (source : Z) (start : nat) (outputs_sources : list Z)
  : list Z :=
  match outputs_sources with
  | [] => []
  | _source :: rest =>
      if Z.eqb _source source
      then Z.of_nat start :: positions_from source (S start) rest
      else positions_from source (S start) rest
  end.

(** [validate_output] and [validate_source] of a client that accepts every
    number. *)
Definition accept_all (number : Z) : result unit := Ok tt.

(** A client call that addresses the player's own output, or, for a CEC
    command to a source, the source routed to that output in the output
    list [outs]. *)
Definition addresses (self : MediaPlayer.t)
    (outs : option (list JtechOutputInfo)) (k : call) : Prop :=
  match k with
  | set_output_stream o _ | set_output_cat_stream o _ | send_cec_output o _
  | set_video_source o _ =>
      o = MediaPlayer._output_index self
  | send_cec_source v _ =>
      exists info,
        py_subscript outs (MediaPlayer._output_index self - 1) = Ok info /\
        v = OutputInfo.source info
  | _ => False
  end.

(** A stream command for output [o]. *)
Definition is_stream_call (o : Z) (k : call) : Prop :=
  match k with
  | set_output_stream o' _ | set_output_cat_stream o' _ => o' = o
  | _ => False
  end.

(** A program of a player that leaves the coordinator's output list alone
    and adds to the trace only calls satisfying [P] (which may depend on
    that output list). *)
Definition player_adds {A}
    (P : option (list JtechOutputInfo) -> call -> Prop)
    (p : prog MediaPlayer.world A) : Prop :=
  forall w,
    let c := MediaPlayer.coordinator w in
    let c' := MediaPlayer.coordinator (fst (p w)) in
    outputs c' = outputs c /\
    exists new, calls c' = calls c ++ new /\ Forall (P (outputs c)) new.

(** The coordinator after a first cycle on [tv_device], and the players of
    its two outputs: without options, and with the source-side CEC toggle
    and the HDMI toggle set. *)
Definition after_tv : t := async_refresh tv_device fresh.

Definition plain_player (output_index : Z) : MediaPlayer.t :=
  MediaPlayer.mk output_index ∅.

Definition cec_source_player : MediaPlayer.t :=
  MediaPlayer.mk 1
    (<[CONF_CEC_SOURCE_TOGGLE := VBool true]>
       (<[CONF_HDMI_STREAM_TOGGLE := VBool true]> ∅)).

(** * Properties of the reconciliation loops *)

Lemma collect_loop_unrolled idx sel : forall start acc,
  foldl (fun outputs '(output_idx, source) =>
           if Z.eqb source (Z.of_nat idx)
           then outputs ++ [(Z.of_nat output_idx + 1)%Z]
           else outputs)
        acc (enumerate_from start sel)
  = acc ++ routed_from idx start sel.
Proof.
  induction sel as [|source rest IH]; intros start acc; simpl.
  - by rewrite app_nil_r.
  - destruct (Z.eqb source (Z.of_nat idx)); rewrite IH; [|done].
    by rewrite <- app_assoc.
Qed.

Lemma collect_outputs_unrolled idx sel :
  collect_outputs idx sel = routed_from idx 0 sel.
Proof. unfold collect_outputs, enumerate. apply collect_loop_unrolled. Qed.

Lemma routed_from_bounds idx sel : forall start,
  Forall (fun x => (Z.of_nat start + 1 <= x <= Z.of_nat (start + length sel))%Z)
         (routed_from idx start sel).
Proof.
  induction sel as [|source rest IH]; intros start; simpl; [constructor|].
  assert (Hrest : Forall (fun x => (Z.of_nat start + 1 <= x
                                    <= Z.of_nat (start + S (length rest)))%Z)
                         (routed_from idx (S start) rest)).
  { eapply Forall_impl; [apply IH|]. simpl. intros x Hx. lia. }
  destruct (Z.eqb source (Z.of_nat idx)); [|done].
  constructor; [lia|done].
Qed.

Lemma routed_from_sorted idx sel : forall start,
  StronglySorted Z.lt (routed_from idx start sel).
Proof.
  induction sel as [|source rest IH]; intros start; simpl; [constructor|].
  destruct (Z.eqb source (Z.of_nat idx)); [|apply IH].
  constructor; [apply IH|].
  eapply Forall_impl; [apply (routed_from_bounds idx rest (S start))|].
  simpl. intros x Hx. lia.
Qed.

Lemma routed_from_elem idx sel : forall start x,
  x ∈ routed_from idx start sel <->
  exists o, sel !! o = Some (Z.of_nat idx) /\ x = (Z.of_nat (start + o) + 1)%Z.
Proof.
  induction sel as [|source rest IH]; intros start x; simpl.
  - split; [by intros ?%elem_of_nil|by intros (o & ? & _)].
  - destruct (Z.eqb_spec source (Z.of_nat idx)) as [->|Hne].
    + rewrite elem_of_cons, IH. split.
      * intros [->|(o & Ho & ->)].
        -- exists 0. split; [done|]. f_equal. lia.
        -- exists (S o). split; [done|]. f_equal. lia.
      * intros ([|o] & Ho & ->).
        -- left. f_equal. lia.
        -- right. exists o. split; [done|]. f_equal. lia.
    + rewrite IH. split.
      * intros (o & Ho & ->). exists (S o). split; [done|]. f_equal. lia.
      * intros ([|o] & Ho & ->).
        -- simpl in Ho. congruence.
        -- exists o. split; [done|]. f_equal. lia.
Qed.

Lemma bind_Ok {A B} (m : result A) (f : A -> result B) (b : B) :
  m ≫= f = Ok b -> exists a, m = Ok a /\ f a = Ok b.
Proof. destruct m as [a|e]; simpl; [eauto|discriminate]. Qed.

Lemma py_index_Ok {A} (l : list A) i x : py_index l i = Ok x -> l !! i = Some x.
Proof. unfold py_index. destruct (l !! i); congruence. Qed.

Lemma py_getattr_Ok {A B} (obj : option A) (attr : A -> B) b :
  py_getattr obj attr = Ok b -> exists a, obj = Some a /\ b = attr a.
Proof. destruct obj; simpl; [|discriminate]. intros [= <-]. eauto. Qed.

Ltac invert_binds :=
  repeat match goal with
    | H : _ ≫= _ = Ok _ |- _ =>
        let a := fresh "a" in
        let Ha := fresh "Ha" in
        apply bind_Ok in H; destruct H as (a & Ha & H)
    | H : py_index _ _ = Ok _ |- _ => apply py_index_Ok in H
    | H : py_getattr _ _ = Ok _ |- _ =>
        let x := fresh "x" in
        apply py_getattr_Ok in H; destruct H as (x & -> & ->)
    end.

Lemma output_rows_spec os cec names : forall start acc res,
  for_each (output_row os cec) (enumerate_from start names) acc = Ok res ->
  exists rows, res = acc ++ rows /\ length rows = length names /\
    forall i o, rows !! i = Some o ->
      names !! i = Some (OutputInfo.name o) /\
      OutputStatus.selected_sources os !! (start + i)
      = Some (OutputInfo.source o) /\
      exists cs, cec = Some cs /\
        OutputInfo.cec_selected o
        = py_in (Z.of_nat (start + i)) (CecStatus.selected_cec_outputs cs).
Proof.
  induction names as [|output_name rest IH]; intros start acc res;
    cbn [for_each enumerate_from].
  - intros [= <-]. exists []. rewrite app_nil_r. repeat split; try done.
  - destruct (output_row os cec acc (start, output_name)) as [acc'|e] eqn:Hrow;
      [|discriminate].
    intros (rows & -> & Hlen & Hrows)%IH.
    unfold output_row in Hrow. invert_binds. injection Hrow as <-.
    eexists (_ :: rows). rewrite <- app_assoc. split; [reflexivity|].
    split; [simpl; congruence|].
    intros [|i] o; simpl.
    + intros [= <-]. simpl. rewrite Nat.add_0_r. eauto.
    + intros Hi. destruct (Hrows i o Hi) as (? & ? & ?).
      by rewrite <- Nat.add_succ_comm.
Qed.

Lemma source_rows_spec ss out cec names : forall start acc res,
  for_each (source_row ss out cec) (enumerate_from start names) acc = Ok res ->
  exists rows, res = acc ++ rows /\ length rows = length names /\
    forall i s, rows !! i = Some s ->
      names !! i = Some (SourceInfo.name s) /\
      exists os, out = Some os /\
        SourceInfo.outputs s
        = collect_outputs (start + i) (OutputStatus.selected_sources os).
Proof.
  induction names as [|source_name rest IH]; intros start acc res;
    cbn [for_each enumerate_from].
  - intros [= <-]. exists []. rewrite app_nil_r. repeat split; try done.
  - destruct (source_row ss out cec acc (start, source_name)) as [acc'|e]
      eqn:Hrow; [|discriminate].
    intros (rows & -> & Hlen & Hrows)%IH.
    unfold source_row in Hrow. invert_binds. injection Hrow as <-.
    eexists (_ :: rows). rewrite <- app_assoc. split; [reflexivity|].
    split; [simpl; congruence|].
    intros [|i] s; simpl.
    + intros [= <-]. simpl. rewrite Nat.add_0_r. eauto.
    + intros Hi. destruct (Hrows i s Hi) as (? & ?).
      by rewrite <- Nat.add_succ_comm.
Qed.

(** What a successful [_handle_output_update] with a list hands back. *)
Lemma handle_output_update_Some statuses outputs_data :
  _handle_output_update statuses = Ok (Some outputs_data) ->
  exists os, Statuses.output statuses = Some os /\
    length outputs_data = length (OutputStatus.output_names os) /\
    forall i o, outputs_data !! i = Some o ->
      OutputStatus.output_names os !! i = Some (OutputInfo.name o) /\
      OutputStatus.selected_sources os !! i = Some (OutputInfo.source o) /\
      exists cs, Statuses.cec statuses = Some cs /\
        OutputInfo.cec_selected o
        = py_in (Z.of_nat i) (CecStatus.selected_cec_outputs cs).
Proof.
  unfold _handle_output_update.
  destruct (Statuses.output statuses) as [os|]; [|discriminate].
  destruct (truthy _); [|discriminate].
  intros H. invert_binds. injection H as <-.
  apply output_rows_spec in Ha as (rows & -> & Hlen & Hrows).
  exists os. split; [done|]. split; [done|]. exact Hrows.
Qed.

Lemma handle_source_update_Some statuses sources_data :
  _handle_source_update statuses = Ok (Some sources_data) ->
  exists ss os, Statuses.source statuses = Some ss /\
    Statuses.output statuses = Some os /\
    length sources_data = length (SourceStatus.source_names ss) /\
    forall i s, sources_data !! i = Some s ->
      SourceStatus.source_names ss !! i = Some (SourceInfo.name s) /\
      SourceInfo.outputs s
      = collect_outputs i (OutputStatus.selected_sources os).
Proof.
  unfold _handle_source_update.
  destruct (Statuses.source statuses) as [ss|]; [|discriminate].
  destruct (SourceStatus.source_names ss) as [|n0 names] eqn:Hnames;
    [discriminate|].
  simpl truthy. cbv iota.
  intros H. invert_binds. injection H as <-.
  apply source_rows_spec in Ha as (rows & -> & Hlen & Hrows).
  destruct rows as [|s0 rows]; [discriminate|].
  destruct (Hrows 0 s0 eq_refl) as (_ & os & Hout & _).
  exists ss, os. rewrite Hnames. repeat split; try done.
  - by destruct (Hrows i s H).
  - destruct (Hrows i s H) as (_ & os' & Hos' & ->). simpl. congruence.
Qed.

(** * The poll cycle in closed form *)

Lemma fetch_status_run dev c :
  _client c = true ->
  exists c1, _fetch_status dev c = (c1, Ok (statuses_of dev)) /\
    same_but_calls c c1 /\ calls c1 = calls c ++ fetch_calls.
Proof.
  intros Hclient. destruct c as [h u p cl co os ss d ks rr].
  simpl in Hclient. subst cl.
  eexists. split; [reflexivity|]. split; [by repeat split|].
  simpl. by rewrite <- !app_assoc.
Qed.

(** How [_client_ensure] ends.  The client exists afterwards and the
    published lists and record are untouched; a raise means that the
    coordinator was not connected and that [connect] itself raised. *)
Lemma client_ensure_run dev c c0 r :
  _client_ensure dev c = (c0, r) ->
  _client c0 = true /\
  outputs c0 = outputs c /\ sources c0 = sources c /\ data c0 = data c /\
  username c0 = username c /\ password c0 = password c /\
  refresh_requests c0 = refresh_requests c /\
  match r with
  | Ok _ => connected c0 = true
  | Raise e =>
      connected c0 = false /\ connected c = false /\
      calls c0 = calls c ++ [connect (username c) (password c)] /\
      exists err,
        Device.on_connect dev (username c) (password c) = Raise err /\
        e = match err with
            | JtechAuthError => ConfigEntryAuthFailed ERROR_AUTH_FAILED
            | JtechConnectionError => UpdateFailed ERROR_CONNECT_FAILED
            | _ => UpdateFailed ERROR_UNKNOWN
            end
  end.
Proof.
  destruct c as [h u p cl co os ss d ks rr].
  unfold _client_ensure, _client_connect, client_call, try_except, bind, get,
    modify, lift, ret, raise.
  destruct cl, co; simpl; try (intros [= <- <-]; by repeat split).
  all: destruct (Device.on_connect dev u p) as [[]|err] eqn:Hconnect; simpl;
    try (intros [= <- <-]; by repeat split).
  all: destruct err; simpl; intros [= <- <-]; simpl; repeat (split; [done|]);
    eexists; by split.
Qed.

Lemma update_data_run dev c :
  match _client_ensure dev c with
  | (c0, Raise e) => _async_update_data dev c = (c0, Raise e)
  | (c0, Ok _) =>
      forall c1, _fetch_status dev c0 = (c1, Ok (statuses_of dev)) ->
        _async_update_data dev c = reconciled (statuses_of dev) c1
  end.
Proof.
  destruct (_client_ensure dev c) as [c0 [[]|e]] eqn:Hensure.
  - intros c1 Hfetch.
    unfold _async_update_data, reconciled, update_failed, bind at 1.
    rewrite Hensure. unfold try_except, bind at 1. rewrite Hfetch.
    unfold bind, lift, modify, ret, raise.
    destruct (_handle_output_update _) as [outs|err]; [|by destruct err].
    destruct (_handle_source_update _) as [srcs|err]; [done|by destruct err].
  - unfold _async_update_data, bind at 1. by rewrite Hensure.
Qed.

Lemma update_data_cases dev c :
  (exists c0 e, _client_ensure dev c = (c0, Raise e) /\
     _async_update_data dev c = (c0, Raise e)) \/
  (exists c0 c1, _client_ensure dev c = (c0, Ok tt) /\
     same_but_calls c0 c1 /\ calls c1 = calls c0 ++ fetch_calls /\
     _async_update_data dev c = reconciled (statuses_of dev) c1).
Proof.
  pose proof (update_data_run dev c) as Hrun.
  destruct (_client_ensure dev c) as [c0 [[]|e]] eqn:Hensure.
  - right. apply client_ensure_run in Hensure as (Hclient & _).
    destruct (fetch_status_run dev c0 Hclient) as (c1 & Hfetch & Hsame & Hcalls).
    exists c0, c1. eauto.
  - left. eauto.
Qed.

(** * Reconciliation returns a list when the arrays are long enough *)

Lemma py_index_lt {A} (l : list A) i :
  i < length l -> exists x, py_index l i = Ok x.
Proof.
  intros [x Hx]%lookup_lt_is_Some_2. exists x. unfold py_index. by rewrite Hx.
Qed.

Lemma output_rows_total os cs names : forall start acc,
  output_arrays_cover (start + length names) os ->
  exists res,
    for_each (output_row os (Some cs)) (enumerate_from start names) acc = Ok res.
Proof.
  induction names as [|output_name rest IH]; intros start acc Hcover;
    cbn [for_each enumerate_from]; [eauto|].
  destruct Hcover as (H1 & H2 & H3 & H4 & H5 & H6 & H7). simpl in *.
  unfold output_row.
  destruct (py_index_lt (OutputStatus.selected_sources os) start) as [? ->];
    [lia|].
  destruct (py_index_lt (OutputStatus.output_cat_names os) start) as [? ->];
    [lia|].
  destruct (py_index_lt (OutputStatus.connected_outputs os) start) as [? ->];
    [lia|].
  destruct (py_index_lt (OutputStatus.connected_cat_outputs os) start)
    as [? ->]; [lia|].
  destruct (py_index_lt (OutputStatus.enabled_outputs os) start) as [? ->];
    [lia|].
  destruct (py_index_lt (OutputStatus.enabled_cat_outputs os) start) as [? ->];
    [lia|].
  destruct (py_index_lt (OutputStatus.selected_output_scalers os) start)
    as [? ->]; [lia|].
  simpl. apply IH. repeat split; lia.
Qed.

Lemma source_rows_total ss os cs names : forall start acc,
  source_arrays_cover (start + length names) ss ->
  exists res,
    for_each (source_row ss (Some os) (Some cs)) (enumerate_from start names) acc
    = Ok res.
Proof.
  induction names as [|source_name rest IH]; intros start acc Hcover;
    cbn [for_each enumerate_from]; [eauto|].
  destruct Hcover as (H1 & H2). simpl in *. unfold source_row.
  destruct (py_index_lt (SourceStatus.active_sources ss) start) as [? ->];
    [lia|].
  destruct (py_index_lt (SourceStatus.edid_indexes ss) start) as [? ->];
    [lia|].
  simpl. apply IH. split; lia.
Qed.

Lemma handle_output_update_total statuses os cs :
  Statuses.output statuses = Some os ->
  Statuses.cec statuses = Some cs ->
  OutputStatus.output_names os <> [] ->
  output_arrays_cover (length (OutputStatus.output_names os)) os ->
  exists outputs_data, _handle_output_update statuses = Ok (Some outputs_data).
Proof.
  intros Hos Hcs Hnames Hcover. unfold _handle_output_update.
  rewrite Hos, Hcs.
  destruct (OutputStatus.output_names os) as [|n0 names] eqn:Hn; [done|].
  cbn [truthy]. unfold enumerate. rewrite <- Hn in *.
  destruct (output_rows_total os cs (OutputStatus.output_names os) 0 [])
    as [res ->]; [done|].
  simpl. eauto.
Qed.

Lemma handle_source_update_total statuses ss os cs :
  Statuses.source statuses = Some ss ->
  Statuses.output statuses = Some os ->
  Statuses.cec statuses = Some cs ->
  SourceStatus.source_names ss <> [] ->
  source_arrays_cover (length (SourceStatus.source_names ss)) ss ->
  exists sources_data, _handle_source_update statuses = Ok (Some sources_data).
Proof.
  intros Hss Hos Hcs Hnames Hcover. unfold _handle_source_update.
  rewrite Hss, Hos, Hcs.
  destruct (SourceStatus.source_names ss) as [|n0 names] eqn:Hn; [done|].
  cbn [truthy]. unfold enumerate. rewrite <- Hn in *.
  destruct (source_rows_total ss os cs (SourceStatus.source_names ss) 0 [])
    as [res ->]; [done|].
  simpl. eauto.
Qed.

(** * Claims on reconciliation *)

(** C2, as stated, fails: in the scenario the two sources do not list
    outputs [[1]] and [[0]]. *)
Lemma scenario_as_stated_fails :
  exists outs srcs,
    _handle_output_update (statuses_of tv_device) = Ok (Some outs) /\
    _handle_source_update (statuses_of tv_device) = Ok (Some srcs) /\
    ~ scenario_result outs srcs [1%Z] [0%Z].
Proof.
  eexists _, _. split; [reflexivity|]. split; [reflexivity|].
  intros (_ & s0 & s1 & [= <-] & _ & Hs0 & _). discriminate Hs0.
Qed.

(** C2 (amended).  For output names [TV1, TV2], source names
    [Blu-ray, Game], selected sources [1, 0] and CEC-selected outputs {0},
    with every other per-output and per-source array holding two entries:
    outputs[0] is TV1 with source 1 and cec_selected true, outputs[1] is
    TV2 with source 0 and cec_selected false, and the source list holds
    the two sources Blu-ray and Game in this order. *)
Theorem scenario_reconciliation statuses os ss cs :
  Statuses.output statuses = Some os ->
  Statuses.source statuses = Some ss ->
  Statuses.cec statuses = Some cs ->
  OutputStatus.output_names os = ["TV1"; "TV2"] ->
  OutputStatus.selected_sources os = [1; 0]%Z ->
  SourceStatus.source_names ss = ["Blu-ray"; "Game"] ->
  CecStatus.selected_cec_outputs cs = [0%Z] ->
  output_arrays_cover 2 os ->
  source_arrays_cover 2 ss ->
  exists outs srcs,
    _handle_output_update statuses = Ok (Some outs) /\
    _handle_source_update statuses = Ok (Some srcs) /\
    scenario_outputs outs srcs.
Proof.
  intros Hos Hss Hcs Hnames Hsel Hsnames Hcec Hocover Hscover.
  destruct (handle_output_update_total statuses os cs) as [outs Houts];
    [done|done|by rewrite Hnames|by rewrite Hnames|].
  destruct (handle_source_update_total statuses ss os cs) as [srcs Hsrcs];
    [done|done|done|by rewrite Hsnames|by rewrite Hsnames|].
  exists outs, srcs. split; [done|]. split; [done|].
  apply handle_output_update_Some in Houts as (os' & Hos' & Hlen & Hrows).
  apply handle_source_update_Some in Hsrcs
    as (ss' & os'' & Hss' & Hos'' & Hslen & Hsrows).
  simplify_eq. rewrite Hnames in Hlen. rewrite Hsnames in Hslen.
  destruct outs as [|o0 [|o1 [|]]]; try discriminate Hlen.
  destruct srcs as [|s0 [|s1 [|]]]; try discriminate Hslen.
  destruct (Hrows 0 o0 eq_refl) as (Hn0 & Hs0 & cs0 & Hcs0 & Hc0).
  destruct (Hrows 1 o1 eq_refl) as (Hn1 & Hs1 & cs1 & Hcs1 & Hc1).
  destruct (Hsrows 0 s0 eq_refl) as (Hsn0 & _).
  destruct (Hsrows 1 s1 eq_refl) as (Hsn1 & _).
  rewrite Hnames in Hn0, Hn1. rewrite Hsel in Hs0, Hs1.
  rewrite Hsnames in Hsn0, Hsn1.
  simplify_eq. rewrite Hcec in Hc0, Hc1. simpl in *.
  split.
  - exists o0, o1. by simplify_eq.
  - injection Hsn0 as Hsn0. injection Hsn1 as Hsn1.
    cbn [fmap list_fmap]. by rewrite <- Hsn0, <- Hsn1.
Qed.

(** C2 (amended), on [tv_device]. *)
Lemma scenario_reconciliation_on_tv_device :
  exists outs srcs,
    _handle_output_update (statuses_of tv_device) = Ok (Some outs) /\
    _handle_source_update (statuses_of tv_device) = Ok (Some srcs) /\
    scenario_outputs outs srcs.
Proof.
  apply (scenario_reconciliation (statuses_of tv_device) tv_outputs tv_sources
           tv_cec); try reflexivity.
  - unfold output_arrays_cover. simpl. lia.
  - unfold source_arrays_cover. simpl. lia.
Defined.

(** What the code computes: source at list position [s] lists output
    number [o + 1] exactly when the fetched selection at position [o] is
    the integer [s]. *)
Lemma source_outputs_mixed_numbering statuses srcs :
  _handle_source_update statuses = Ok (Some srcs) ->
  exists os, Statuses.output statuses = Some os /\
    forall (s : nat) src, srcs !! s = Some src ->
      forall x, x ∈ SourceInfo.outputs src <->
        exists o : nat,
          OutputStatus.selected_sources os !! o = Some (Z.of_nat s) /\
          x = (Z.of_nat o + 1)%Z.
Proof.
  intros (ss & os & _ & Hos & _ & Hrows)%handle_source_update_Some.
  exists os. split; [done|]. intros s src Hsrc x.
  destruct (Hrows s src Hsrc) as (_ & ->).
  rewrite collect_outputs_unrolled, routed_from_elem. done.
Qed.

(** C3.  On [routed_device] (output 1 routes source 1, output 2 routes
    source 2) the cycle's lists are not inverse to each other under either
    numbering: the first source lists no output and the second source
    lists output 1, because a source's list position (from 0) is compared
    with the selected source while the output is recorded by its number
    (from 1). *)
Theorem inverse_mapping_mixes_numberings :
  exists o0 o1 s0 s1,
    is_ok (snd (_async_update_data routed_device fresh)) = true /\
    outputs (async_refresh routed_device fresh) = Some [o0; o1] /\
    sources (async_refresh routed_device fresh) = Some [s0; s1] /\
    _handle_output_update (statuses_of routed_device) = Ok (Some [o0; o1]) /\
    _handle_source_update (statuses_of routed_device) = Ok (Some [s0; s1]) /\
    OutputInfo.source o0 = 1%Z /\ OutputInfo.source o1 = 2%Z /\
    SourceInfo.outputs s0 = [] /\ SourceInfo.outputs s1 = [1%Z] /\
    ~ inverse_mapping 0 [o0; o1] [s0; s1] /\
    ~ inverse_mapping 1 [o0; o1] [s0; s1].
Proof.
  eexists _, _, _, _.
  apply conj; [vm_compute; reflexivity|].
  apply conj; [vm_compute; reflexivity|].
  apply conj; [vm_compute; reflexivity|].
  apply conj; [reflexivity|]. apply conj; [reflexivity|].
  repeat (apply conj; [reflexivity|]). apply conj.
  - intros H. specialize (H 1 _ eq_refl 0). simpl in H.
    destruct H as [_ H].
    assert (Hin : 0%Z ∈ [1%Z]) by (apply H; eexists; split; reflexivity).
    apply list_elem_of_singleton in Hin. discriminate Hin.
  - intros H. specialize (H 1 _ eq_refl 0). simpl in H.
    destruct H as [H _].
    destruct H as (out & [= <-] & Hsrc);
      [apply list_elem_of_singleton; reflexivity|].
    discriminate Hsrc.
Qed.

(** C4, as stated, fails: a successful cycle on [tv_device] yields two
    outputs and two sources, and the second output routes source 0. *)
Lemma source_index_zero_not_valid :
  exists c' d outs srcs,
    _async_update_data tv_device fresh = (c', Ok d) /\
    outputs c' = Some outs /\ sources c' = Some srcs /\
    length outs = length (OutputStatus.output_names tv_outputs) /\
    length srcs = length (SourceStatus.source_names tv_sources) /\
    outs <> [] /\ srcs <> [] /\
    ~ sources_valid outs srcs.
Proof.
  eexists _, _, _, _. split; [reflexivity|].
  split; [reflexivity|]. split; [reflexivity|].
  repeat (split; [done|]).
  intros H. unfold sources_valid in H.
  apply Forall_cons in H as [_ H]. apply Forall_cons in H as [H _].
  simpl in H. lia.
Qed.

(** C4 (amended).  After a successful cycle that produced both lists,
    the lists are as long as the fetched name arrays and each
    [OutputInfo.source] is the fetched [selected_sources] entry at the
    same position, copied unchecked; hence every [OutputInfo.source] is a
    valid 1-based index into [sources] whenever every fetched entry lies
    between 1 and the number of source names. *)
Theorem output_source_copied_unchecked dev c c' d outs srcs :
  _async_update_data dev c = (c', Ok d) ->
  outputs c' = Some outs ->
  sources c' = Some srcs ->
  exists os ss,
    Device.on_get_output_status dev = Ok os /\
    Device.on_get_source_status dev = Ok ss /\
    length outs = length (OutputStatus.output_names os) /\
    length srcs = length (SourceStatus.source_names ss) /\
    (forall i o, outs !! i = Some o ->
       OutputStatus.selected_sources os !! i = Some (OutputInfo.source o)) /\
    (Forall (fun x => (1 <= x <= Z.of_nat (length (SourceStatus.source_names ss)))%Z)
            (OutputStatus.selected_sources os) ->
     sources_valid outs srcs).
Proof.
  intros Hrun Houts Hsrcs.
  destruct (update_data_cases dev c) as [(c0 & e & _ & Hraise)|
                                         (c0 & c1 & _ & _ & _ & Hrec)];
    [congruence|].
  rewrite Hrun in Hrec. unfold reconciled in Hrec.
  destruct (_handle_output_update _) as [outs'|] eqn:Ho; [|discriminate].
  destruct (_handle_source_update _) as [srcs'|] eqn:Hs; [|discriminate].
  injection Hrec as -> _. simpl in Houts, Hsrcs. subst outs' srcs'.
  apply handle_output_update_Some in Ho as (os & Hos & Hlen & Hrows).
  apply handle_source_update_Some in Hs as (ss & os' & Hss & _ & Hslen & _).
  unfold statuses_of in Hos, Hss. simpl in Hos, Hss.
  destruct (Device.on_get_output_status dev) as [os0|] eqn:Hdo; [|discriminate].
  destruct (Device.on_get_source_status dev) as [ss0|] eqn:Hds; [|discriminate].
  simpl in Hos, Hss. simplify_eq.
  exists os, ss. repeat (split; [done|]). split.
  - intros i o Hi. by destruct (Hrows i o Hi) as (_ & ? & _).
  - intros Hrange. unfold sources_valid. rewrite Hslen.
    apply Forall_lookup. intros i o Hi.
    destruct (Hrows i o Hi) as (_ & Hsel & _).
    by apply (Forall_lookup_1 _ _ _ _ Hrange Hsel).
Qed.

(** C4 (amended), on the cycle of [tv_device] from the initial state. *)
Lemma output_source_copied_unchecked_on_tv_device :
  exists os ss,
    Device.on_get_output_status tv_device = Ok os /\
    Device.on_get_source_status tv_device = Ok ss /\
    length tv_reconciled_outputs = length (OutputStatus.output_names os) /\
    length tv_reconciled_sources = length (SourceStatus.source_names ss) /\
    (forall i o, tv_reconciled_outputs !! i = Some o ->
       OutputStatus.selected_sources os !! i = Some (OutputInfo.source o)) /\
    (Forall (fun x => (1 <= x <= Z.of_nat (length (SourceStatus.source_names ss)))%Z)
            (OutputStatus.selected_sources os) ->
     sources_valid tv_reconciled_outputs tv_reconciled_sources).
Proof.
  apply (output_source_copied_unchecked tv_device fresh
           (fst (_async_update_data tv_device fresh))
           (combined_data_of (statuses_of tv_device))
           tv_reconciled_outputs tv_reconciled_sources).
  - vm_compute. reflexivity.
  - vm_compute. reflexivity.
  - vm_compute. reflexivity.
Defined.

(** C10.  When [_handle_source_update] hands back a list, the output
    status is present, and each [SourceInfo.outputs] is strictly
    increasing with every element between 1 and the length of the fetched
    [selected_sources]. *)
Theorem source_outputs_increasing_and_bounded statuses srcs :
  _handle_source_update statuses = Ok (Some srcs) ->
  exists os, Statuses.output statuses = Some os /\
    Forall (fun src =>
              StronglySorted Z.lt (SourceInfo.outputs src) /\
              Forall (fun x => (1 <= x <= Z.of_nat
                                  (length (OutputStatus.selected_sources os)))%Z)
                     (SourceInfo.outputs src))
           srcs.
Proof.
  intros (ss & os & _ & Hos & _ & Hrows)%handle_source_update_Some.
  exists os. split; [done|]. apply Forall_lookup. intros s src Hsrc.
  destruct (Hrows s src Hsrc) as (_ & ->).
  rewrite collect_outputs_unrolled. split.
  - apply routed_from_sorted.
  - eapply Forall_impl; [apply routed_from_bounds|]. simpl. intros x Hx. lia.
Qed.

(** C10, on the statuses fetched from [tv_device]. *)
Lemma source_outputs_increasing_and_bounded_on_tv_device :
  exists os, Statuses.output (statuses_of tv_device) = Some os /\
    Forall (fun src =>
              StronglySorted Z.lt (SourceInfo.outputs src) /\
              Forall (fun x => (1 <= x <= Z.of_nat
                                  (length (OutputStatus.selected_sources os)))%Z)
                     (SourceInfo.outputs src))
           tv_reconciled_sources.
Proof.
  apply (source_outputs_increasing_and_bounded (statuses_of tv_device)).
  reflexivity.
Defined.

(** * Claims on failures *)

Lemma client_ensure_calls dev c c0 r :
  _client_ensure dev c = (c0, r) ->
  calls c0 = calls c ++
             (if connected c then []
              else [connect (username c) (password c)]).
Proof.
  destruct c as [h u p cl co os ss d ks rr].
  unfold _client_ensure, _client_connect, client_call, try_except, bind, get,
    modify, lift, ret, raise.
  destruct cl, co; simpl; try (intros [= <- <-]; simpl; by rewrite ?app_nil_r).
  all: destruct (Device.on_connect dev u p) as [[]|err]; simpl;
    try (intros [= <- <-]; done).
  all: destruct err; simpl; intros [= <- <-]; done.
Qed.

Lemma reconciled_calls statuses c1 :
  calls (fst (reconciled statuses c1)) = calls c1.
Proof.
  unfold reconciled.
  destruct (_handle_output_update statuses); [|by destruct c1].
  destruct (_handle_source_update statuses); by destruct c1.
Qed.

(** C1.  When the fetch of the output status raises while [connect], the
    source status (with at least one source name) and the CEC status
    answer, [_fetch_status] records [None] for the output status only and
    keeps every other answer; but the cycle does not complete:
    [_handle_output_update] hands back [None], which is stored in
    [outputs], and [_handle_source_update] then reads
    [output_status.selected_sources] on [None], so the cycle raises
    [UpdateFailed] and [connected] is cleared. *)
Theorem output_fetch_failure_fails_the_cycle dev c err ss cs :
  Device.on_connect dev (username c) (password c) = Ok tt ->
  Device.on_get_output_status dev = Raise err ->
  Device.on_get_source_status dev = Ok ss ->
  SourceStatus.source_names ss <> [] ->
  Device.on_get_cec_status dev = Ok cs ->
  exists c0 c1 statuses c',
    _client_ensure dev c = (c0, Ok tt) /\
    _fetch_status dev c0 = (c1, Ok statuses) /\
    Statuses.output statuses = None /\
    Statuses.source statuses = Some ss /\
    Statuses.cec statuses = Some cs /\
    Statuses.status statuses = filter_exception (Device.on_get_status dev) /\
    Statuses.network statuses = filter_exception (Device.on_get_network dev) /\
    Statuses.system statuses
    = filter_exception (Device.on_get_system_status dev) /\
    Statuses.web_details statuses
    = filter_exception (Device.on_get_web_details dev) /\
    _async_update_data dev c
    = (c', Raise (UpdateFailed ERROR_FETCH_DATA_FAILED)) /\
    outputs c' = None /\
    connected c' = false.
Proof.
  intros Hconnect Hout Hsrc Hnames Hcec.
  pose proof (update_data_run dev c) as Hrun.
  destruct (_client_ensure dev c) as [c0 r] eqn:Hensure.
  pose proof (client_ensure_run _ _ _ _ Hensure) as (Hclient & _ & _ & _ & _ & _ & _ & Hr).
  destruct r as [[]|e].
  2:{ destruct Hr as (_ & _ & _ & err' & Herr' & _). congruence. }
  destruct (fetch_status_run dev c0 Hclient) as (c1 & Hfetch & _ & _).
  specialize (Hrun c1 Hfetch).
  exists c0, c1, (statuses_of dev). unfold statuses_of at 2 3 4 5 6 7 8.
  cbn [Statuses.output Statuses.source Statuses.cec Statuses.status
       Statuses.network Statuses.system Statuses.web_details].
  rewrite Hout, Hsrc, Hcec. cbn [filter_exception].
  assert (Hrec : reconciled (statuses_of dev) c1
                 = (set_connected false (set_outputs None c1),
                    Raise (UpdateFailed ERROR_FETCH_DATA_FAILED))).
  { unfold reconciled, _handle_output_update, _handle_source_update,
      statuses_of.
    cbn [Statuses.output Statuses.source Statuses.cec].
    rewrite Hout, Hsrc, Hcec. cbn [filter_exception].
    destruct (SourceStatus.source_names ss) as [|n0 names]; [done|].
    cbn [truthy enumerate enumerate_from for_each]. unfold source_row.
    unfold py_index.
    destruct (SourceStatus.active_sources ss !! 0); [|done].
    destruct (SourceStatus.edid_indexes ss !! 0); done. }
  rewrite Hrec in Hrun.
  eexists. repeat (split; [done|]). by destruct c1.
Qed.

(** C1, on [no_output_device] from the initial state. *)
Lemma output_fetch_failure_on_no_output_device :
  exists c0 c1 statuses c',
    _client_ensure no_output_device fresh = (c0, Ok tt) /\
    _fetch_status no_output_device c0 = (c1, Ok statuses) /\
    Statuses.output statuses = None /\
    Statuses.source statuses = Some tv_sources /\
    Statuses.cec statuses = Some tv_cec /\
    Statuses.status statuses
    = filter_exception (Device.on_get_status no_output_device) /\
    Statuses.network statuses
    = filter_exception (Device.on_get_network no_output_device) /\
    Statuses.system statuses
    = filter_exception (Device.on_get_system_status no_output_device) /\
    Statuses.web_details statuses
    = filter_exception (Device.on_get_web_details no_output_device) /\
    _async_update_data no_output_device fresh
    = (c', Raise (UpdateFailed ERROR_FETCH_DATA_FAILED)) /\
    outputs c' = None /\
    connected c' = false.
Proof.
  apply (output_fetch_failure_fails_the_cycle no_output_device fresh
           JtechConnectionTimeout tv_sources tv_cec); try reflexivity.
  discriminate.
Defined.

(** * Claims on connecting *)

Lemma client_ensure_raises dev c err :
  connected c = false ->
  Device.on_connect dev (username c) (password c) = Raise err ->
  exists c0,
    _client_ensure dev c
    = (c0, Raise (match err with
                  | JtechAuthError => ConfigEntryAuthFailed ERROR_AUTH_FAILED
                  | JtechConnectionError => UpdateFailed ERROR_CONNECT_FAILED
                  | _ => UpdateFailed ERROR_UNKNOWN
                  end)).
Proof.
  destruct c as [h u p cl co os ss d ks rr]. simpl. intros -> Hconnect.
  unfold _client_ensure, _client_connect, client_call, try_except, bind, get,
    modify, lift, ret, raise.
  destruct cl; simpl; rewrite Hconnect; simpl; destruct err; eauto.
Qed.

Lemma update_data_calls_after_ensure dev c c' r :
  _async_update_data dev c = (c', r) ->
  exists rest,
    calls c' = calls c ++
               (if connected c then []
                else [connect (username c) (password c)]) ++ rest.
Proof.
  intros Hrun.
  destruct (update_data_cases dev c)
    as [(c0 & e & Hensure & Hraise)|(c0 & c1 & Hensure & _ & Hcalls & Hrec)].
  - exists []. rewrite app_nil_r. rewrite Hrun in Hraise.
    injection Hraise as -> _. eapply client_ensure_calls, Hensure.
  - exists fetch_calls. rewrite Hrun in Hrec.
    apply (f_equal fst) in Hrec. simpl in Hrec. subst c'.
    rewrite reconciled_calls, Hcalls.
    rewrite (client_ensure_calls _ _ _ _ Hensure). by rewrite <- app_assoc.
Qed.

(** C5.  When the coordinator is not connected and [connect] raises,
    the cycle raises: [ConfigEntryAuthFailed] for an authentication error,
    [UpdateFailed] with the connect-failed message for a connection error,
    and some [UpdateFailed] for any other error; the two exception classes
    are distinct; [connected] is false afterwards, and the next cycle, on
    any device, starts with a new [connect] call. *)
Theorem connect_failure_is_classified dev c err :
  connected c = false ->
  Device.on_connect dev (username c) (password c) = Raise err ->
  exists c' e,
    _async_update_data dev c = (c', Raise e) /\
    (err = JtechAuthError -> e = ConfigEntryAuthFailed ERROR_AUTH_FAILED) /\
    (err = JtechConnectionError -> e = UpdateFailed ERROR_CONNECT_FAILED) /\
    (err <> JtechAuthError -> exists msg, e = UpdateFailed msg) /\
    (forall msg msg', ConfigEntryAuthFailed msg <> UpdateFailed msg') /\
    connected c' = false /\
    forall dev' c'' r,
      _async_update_data dev' c' = (c'', r) ->
      exists rest,
        calls c'' = calls c' ++ connect (username c) (password c) :: rest.
Proof.
  intros Hoff Hconnect.
  destruct (client_ensure_raises dev c err Hoff Hconnect) as [c0 Hensure].
  pose proof (client_ensure_run _ _ _ _ Hensure)
    as (_ & _ & _ & _ & Huser & Hpass & _ & Hoff' & _).
  pose proof (update_data_run dev c) as Hrun. rewrite Hensure in Hrun.
  eexists c0, _. split; [exact Hrun|].
  split; [by intros ->|]. split; [by intros ->|].
  split; [destruct err; eauto; done|]. split; [done|]. split; [done|].
  intros dev' c'' r Hnext.
  apply update_data_calls_after_ensure in Hnext as [rest Hnext].
  rewrite Hoff', Huser, Hpass in Hnext. exists rest. by rewrite Hnext.
Qed.

(** C5, on [locked_device] from the initial state. *)
Lemma connect_failure_on_locked_device :
  exists c' e,
    _async_update_data locked_device fresh = (c', Raise e) /\
    (JtechAuthError = JtechAuthError ->
     e = ConfigEntryAuthFailed ERROR_AUTH_FAILED) /\
    (JtechAuthError = JtechConnectionError ->
     e = UpdateFailed ERROR_CONNECT_FAILED) /\
    (JtechAuthError <> JtechAuthError -> exists msg, e = UpdateFailed msg) /\
    (forall msg msg', ConfigEntryAuthFailed msg <> UpdateFailed msg') /\
    connected c' = false /\
    forall dev' c'' r,
      _async_update_data dev' c' = (c'', r) ->
      exists rest,
        calls c'' = calls c' ++
                    connect (username fresh) (password fresh) :: rest.
Proof.
  apply (connect_failure_is_classified locked_device fresh JtechAuthError);
    reflexivity.
Defined.

(** C6, as stated, fails on the coordinator the integration loads: on a
    device that cannot be reached the cycle raises [UpdateFailed]. *)
Lemma unreachable_device_raises :
  exists c',
    _async_update_data unreachable_device fresh
    = (c', Raise (UpdateFailed ERROR_CONNECT_FAILED)) /\
    connected c' = false.
Proof. eexists. split; reflexivity. Qed.

(** C6 (amended).  When [connect] raises [JtechConnectionError] or
    [JtechConnectionTimeout]: the alternate coordinator of
    [_coordinator.py] completes the cycle without an exception, with
    [power] and [connected] both false; the coordinator of
    [coordinator.py] clears [connected], leaves [data] as it was and
    raises [UpdateFailed] (with the connect-failed message for
    [JtechConnectionError]). *)
Theorem connection_error_outcomes dev err (lc : Legacy.t) (c : t) :
  err = JtechConnectionError \/ err = JtechConnectionTimeout ->
  Legacy.is_true (Legacy.getattr "connected" lc) = false ->
  Device.on_connect dev (Legacy.user lc) (Legacy.password lc) = Raise err ->
  connected c = false ->
  Device.on_connect dev (username c) (password c) = Raise err ->
  (exists lc',
     Legacy._async_update_data dev lc = (lc', Ok tt) /\
     Legacy.getattr "power" lc' = Some (VBool false) /\
     Legacy.getattr "connected" lc' = Some (VBool false)) /\
  (exists c' msg,
     _async_update_data dev c = (c', Raise (UpdateFailed msg)) /\
     (err = JtechConnectionError -> msg = ERROR_CONNECT_FAILED) /\
     connected c' = false /\
     data c' = data c).
Proof.
  intros Herr Hloff Hlconnect Hoff Hconnect. split.
  - destruct lc as [u p attrs ks rr].
    unfold Legacy.getattr in Hloff. cbn [Legacy.attrs] in Hloff.
    cbn [Legacy.user Legacy.password] in Hlconnect.
    unfold Legacy._async_update_data, Legacy.when, Legacy.client_call,
      try_except, bind, get, modify, lift.
    unfold Legacy.getattr at 1. cbn [Legacy.attrs]. rewrite Hloff.
    cbn [negb Legacy.log_call Legacy.user Legacy.password].
    rewrite Hlconnect.
    destruct Herr as [-> | ->]; eexists; (split; [reflexivity|]);
      unfold Legacy.getattr; cbn [Legacy.attrs fst Legacy.setattr modify];
      split; by simplify_map_eq.
  - destruct (client_ensure_raises dev c err Hoff Hconnect) as [c0 Hensure].
    pose proof (client_ensure_run _ _ _ _ Hensure)
      as (_ & _ & _ & Hdata & _ & _ & _ & Hoff' & _).
    pose proof (update_data_run dev c) as Hrun. rewrite Hensure in Hrun.
    destruct Herr as [-> | ->]; eexists c0, _; (split; [exact Hrun|]);
      by repeat split.
Qed.

(** C6 (amended), on [unreachable_device] from the initial states. *)
Lemma connection_error_outcomes_on_unreachable_device :
  (exists lc',
     Legacy._async_update_data unreachable_device
       (Legacy.__init__ "admin" "secret") = (lc', Ok tt) /\
     Legacy.getattr "power" lc' = Some (VBool false) /\
     Legacy.getattr "connected" lc' = Some (VBool false)) /\
  (exists c' msg,
     _async_update_data unreachable_device fresh
     = (c', Raise (UpdateFailed msg)) /\
     (JtechConnectionError = JtechConnectionError ->
      msg = ERROR_CONNECT_FAILED) /\
     connected c' = false /\
     data c' = data fresh).
Proof.
  apply (connection_error_outcomes unreachable_device JtechConnectionError
           (Legacy.__init__ "admin" "secret") fresh).
  - left. reflexivity.
  - vm_compute. reflexivity.
  - reflexivity.
  - reflexivity.
  - reflexivity.
Defined.

(** * Claims on commands *)

Lemma client_call_passthrough dev k c :
  _client c = true ->
  passthrough dev (client_call k (Device.on_command dev k)) k c.
Proof.
  destruct c as [h u p cl co os ss d ks rr]. simpl. intros ->.
  unfold passthrough, client_call, bind, get, modify, lift. simpl.
  by repeat split.
Qed.

(** C7.  Once the client exists, each of the nine command methods makes
    exactly one call, to its own client method with its own arguments,
    hands back that call's outcome unchanged, requests no refresh and
    changes nothing else of the coordinator. *)
Theorem commands_are_passthroughs dev c (output source command : Z) :
  _client c = true ->
  passthrough dev (async_enable_output dev output)
    (set_output_stream output true) c /\
  passthrough dev (async_disable_output dev output)
    (set_output_stream output false) c /\
  passthrough dev (async_enable_cat_output dev output)
    (set_output_cat_stream output true) c /\
  passthrough dev (async_disable_cat_output dev output)
    (set_output_cat_stream output false) c /\
  passthrough dev (async_select_source dev output source)
    (set_video_source output source) c /\
  passthrough dev (async_send_cec_output dev output command)
    (send_cec_output output command) c /\
  passthrough dev (async_send_cec_source dev source command)
    (send_cec_source source command) c /\
  passthrough dev (async_power_on dev) (set_power true) c /\
  passthrough dev (async_power_off dev) (set_power false) c.
Proof.
  intros Hclient. repeat split; by apply client_call_passthrough.
Qed.

(** C7, in the state a first cycle on [tv_device] leaves. *)
Lemma commands_are_passthroughs_after_a_cycle :
  let c := async_refresh tv_device fresh in
  passthrough tv_device (async_enable_output tv_device 1)
    (set_output_stream 1 true) c /\
  passthrough tv_device (async_disable_output tv_device 1)
    (set_output_stream 1 false) c /\
  passthrough tv_device (async_enable_cat_output tv_device 1)
    (set_output_cat_stream 1 true) c /\
  passthrough tv_device (async_disable_cat_output tv_device 1)
    (set_output_cat_stream 1 false) c /\
  passthrough tv_device (async_select_source tv_device 1 2)
    (set_video_source 1 2) c /\
  passthrough tv_device (async_send_cec_output tv_device 1 5)
    (send_cec_output 1 5) c /\
  passthrough tv_device (async_send_cec_source tv_device 2 5)
    (send_cec_source 2 5) c /\
  passthrough tv_device (async_power_on tv_device) (set_power true) c /\
  passthrough tv_device (async_power_off tv_device) (set_power false) c.
Proof.
  apply (commands_are_passthroughs tv_device (async_refresh tv_device fresh)
           1 2 5).
  vm_compute. reflexivity.
Defined.

(** The decorated commands of the alternate coordinator, for contrast:
    two client calls, one refresh request, the client's value dropped. *)
Lemma legacy_output_turn_on_requests_refresh dev output lc b1 b2 :
  Device.on_command dev (set_output_stream output true) = Ok b1 ->
  Device.on_command dev (set_output_cat_stream output true) = Ok b2 ->
  exists lc',
    Legacy.async_output_turn_on dev output lc = (lc', Ok tt) /\
    Legacy.calls lc' = Legacy.calls lc ++ [set_output_stream output true;
                                           set_output_cat_stream output true] /\
    Legacy.refresh_requests lc' = S (Legacy.refresh_requests lc).
Proof.
  intros H1 H2. destruct lc as [u p attrs ks rr].
  unfold Legacy.async_output_turn_on, Legacy.catch_jtechdigital_errors,
    Legacy.client_call, Legacy.async_request_refresh, try_except, bind,
    modify, lift, ret.
  cbn [Legacy.log_call Legacy.user Legacy.password Legacy.attrs Legacy.calls
       Legacy.refresh_requests].
  rewrite H1, H2. eexists. split; [reflexivity|].
  simpl. split; [|done]. by rewrite <- app_assoc.
Qed.

(** * Claims on the published record *)

(** C8, as stated, fails: after a cycle that published [power], a
    successful cycle whose status fetch raised publishes a record without
    [power]. *)
Lemma failed_field_is_dropped :
  let before := async_refresh tv_device fresh in
  let after := async_refresh no_status_device before in
  Device.on_get_status no_status_device = Raise JtechError /\
  is_ok (snd (_async_update_data no_status_device before)) = true /\
  data before ≫= (.!! "power") = Some (VBool true) /\
  data after ≫= (.!! "power") = None /\
  data after ≫= (.!! "hostname") = Some (VStr "matrix").
Proof.
  cbv zeta. repeat apply conj; vm_compute; reflexivity.
Qed.

Lemma update_data_Ok dev c c' d :
  _async_update_data dev c = (c', Ok d) ->
  d = combined_data_of (statuses_of dev) /\
  _handle_output_update (statuses_of dev) = Ok (outputs c') /\
  _handle_source_update (statuses_of dev) = Ok (sources c') /\
  data c' = data c /\ connected c' = true.
Proof.
  intros Hrun.
  destruct (update_data_cases dev c)
    as [(c0 & e & _ & Hraise)|(c0 & c1 & Hensure & Hsame & _ & Hrec)];
    [congruence|].
  rewrite Hrun in Hrec. unfold reconciled in Hrec.
  destruct (_handle_output_update _) as [outs|]; [|discriminate].
  destruct (_handle_source_update _) as [srcs|]; [|discriminate].
  injection Hrec as -> ->.
  apply client_ensure_run in Hensure as (_ & _ & _ & Hdata & _ & _ & _ & Hon).
  destruct Hsame as (_ & _ & _ & _ & Hon1 & _ & _ & Hdata1 & _).
  destruct c1. simpl in *. repeat split; congruence.
Qed.

(** C8 (amended).  The record a successful cycle returns is the one
    published as [data]; each of its sixteen keys holds the freshly
    fetched value when the owning fetch answered and is absent when the
    owning fetch raised, whatever the previous record held. *)
Theorem combined_record_is_rebuilt dev c c' d :
  _async_update_data dev c = (c', Ok d) ->
  data (async_refresh dev c) = Some d /\
  (let status := Device.on_get_status dev in
   d !! "power" = fetched_field status (fun s => VBool (Status.power s)) /\
   d !! "model" = fetched_field status (fun s => VStr (Status.model s)) /\
   d !! "version" = fetched_field status (fun s => VStr (Status.version s))) /\
  (let network := Device.on_get_network dev in
   d !! "hostname" = fetched_field network (fun n => VStr (Network.hostname n)) /\
   d !! "ipaddress" = fetched_field network (fun n => VStr (Network.ipaddress n)) /\
   d !! "subnet" = fetched_field network (fun n => VStr (Network.subnet n)) /\
   d !! "gateway" = fetched_field network (fun n => VStr (Network.gateway n)) /\
   d !! "macaddress"
   = fetched_field network (fun n => VStr (Network.macaddress n)) /\
   d !! "dhcp" = fetched_field network (fun n => VBool (Network.dhcp n)) /\
   d !! "telnetport"
   = fetched_field network (fun n => VInt (Network.telnetport n)) /\
   d !! "tcpport" = fetched_field network (fun n => VInt (Network.tcpport n))) /\
  (let system := Device.on_get_system_status dev in
   d !! "baudrate_index"
   = fetched_field system (fun s => VInt (SystemStatus.baudrate_index s)) /\
   d !! "beep" = fetched_field system (fun s => VBool (SystemStatus.beep s)) /\
   d !! "lock" = fetched_field system (fun s => VBool (SystemStatus.lock s)) /\
   d !! "mode" = fetched_field system (fun s => VInt (SystemStatus.mode s))) /\
  d !! "title" = fetched_field (Device.on_get_web_details dev)
                   (fun w => VStr (WebDetails.title w)).
Proof.
  intros Hrun. split.
  { unfold async_refresh. rewrite Hrun. by destruct c'. }
  apply update_data_Ok in Hrun as (-> & _).
  unfold combined_data_of, statuses_of.
  cbn [Statuses.status Statuses.network Statuses.system Statuses.web_details].
  destruct (Device.on_get_status dev) as [status|];
    destruct (Device.on_get_network dev) as [network|];
    destruct (Device.on_get_system_status dev) as [system|];
    destruct (Device.on_get_web_details dev) as [web|];
    cbn [filter_exception combine_status combine_network combine_system
         combine_web_details fetched_field];
    repeat split; by simplify_map_eq.
Qed.

(** C8 (amended), on [no_status_device] after a first cycle. *)
Lemma combined_record_is_rebuilt_without_status :
  let c := async_refresh tv_device fresh in
  let d := combined_data_of (statuses_of no_status_device) in
  data (async_refresh no_status_device c) = Some d /\
  (let status := Device.on_get_status no_status_device in
   d !! "power" = fetched_field status (fun s => VBool (Status.power s)) /\
   d !! "model" = fetched_field status (fun s => VStr (Status.model s)) /\
   d !! "version" = fetched_field status (fun s => VStr (Status.version s))) /\
  (let network := Device.on_get_network no_status_device in
   d !! "hostname" = fetched_field network (fun n => VStr (Network.hostname n)) /\
   d !! "ipaddress" = fetched_field network (fun n => VStr (Network.ipaddress n)) /\
   d !! "subnet" = fetched_field network (fun n => VStr (Network.subnet n)) /\
   d !! "gateway" = fetched_field network (fun n => VStr (Network.gateway n)) /\
   d !! "macaddress"
   = fetched_field network (fun n => VStr (Network.macaddress n)) /\
   d !! "dhcp" = fetched_field network (fun n => VBool (Network.dhcp n)) /\
   d !! "telnetport"
   = fetched_field network (fun n => VInt (Network.telnetport n)) /\
   d !! "tcpport" = fetched_field network (fun n => VInt (Network.tcpport n))) /\
  (let system := Device.on_get_system_status no_status_device in
   d !! "baudrate_index"
   = fetched_field system (fun s => VInt (SystemStatus.baudrate_index s)) /\
   d !! "beep" = fetched_field system (fun s => VBool (SystemStatus.beep s)) /\
   d !! "lock" = fetched_field system (fun s => VBool (SystemStatus.lock s)) /\
   d !! "mode" = fetched_field system (fun s => VInt (SystemStatus.mode s))) /\
  d !! "title" = fetched_field (Device.on_get_web_details no_status_device)
                   (fun w => VStr (WebDetails.title w)).
Proof.
  apply (combined_record_is_rebuilt no_status_device
           (async_refresh tv_device fresh)
           (fst (_async_update_data no_status_device
                   (async_refresh tv_device fresh)))).
  vm_compute. reflexivity.
Defined.

(** * Claims on publication *)

(** C9, as stated, fails: a cycle that raises during source
    reconciliation has already replaced [outputs].  From the initial
    state, first with a source status whose arrays are too short, then
    with the output status missing. *)
Lemma failing_cycle_replaces_outputs :
  outputs fresh = Some [] /\
  (let after := async_refresh short_sources_device fresh in
   _async_update_data short_sources_device fresh
   = (after, Raise (UpdateFailed ERROR_FETCH_DATA_FAILED)) /\
   outputs after = Some tv_reconciled_outputs /\
   sources after = sources fresh /\
   data after = data fresh) /\
  (let after := async_refresh no_output_device fresh in
   _async_update_data no_output_device fresh
   = (after, Raise (UpdateFailed ERROR_FETCH_DATA_FAILED)) /\
   outputs after = None /\
   sources after = sources fresh /\
   data after = data fresh).
Proof.
  cbv zeta. repeat apply conj; vm_compute; reflexivity.
Qed.

(** C9 (amended).  What a cycle publishes is decided stage by stage.
    When connecting raises, or output reconciliation raises, [outputs],
    [sources] and [data] are as they were.  When output reconciliation
    returns and source reconciliation raises, the cycle raises, [sources]
    and [data] are as they were, and [outputs] already holds this cycle's
    output list.  When both return, the cycle returns and all three hold
    this cycle's values. *)
Theorem publication_by_stages dev c :
  let statuses := statuses_of dev in
  let run := _async_update_data dev c in
  let c' := async_refresh dev c in
  match snd (_client_ensure dev c) with
  | Raise e =>
      snd run = Raise e /\
      outputs c' = outputs c /\ sources c' = sources c /\ data c' = data c
  | Ok _ =>
      match _handle_output_update statuses with
      | Raise _ =>
          is_ok (snd run) = false /\
          outputs c' = outputs c /\ sources c' = sources c /\
          data c' = data c
      | Ok outs =>
          match _handle_source_update statuses with
          | Raise _ =>
              is_ok (snd run) = false /\
              outputs c' = outs /\ sources c' = sources c /\
              data c' = data c
          | Ok srcs =>
              snd run = Ok (combined_data_of statuses) /\
              outputs c' = outs /\ sources c' = srcs /\
              data c' = Some (combined_data_of statuses)
          end
      end
  end.
Proof.
  cbv zeta. unfold async_refresh.
  destruct (update_data_cases dev c)
    as [(c0 & e0 & Hensure & Hraise)|(c0 & c1 & Hensure & Hsame & _ & Hrec)];
    rewrite Hensure; cbn [snd].
  - rewrite Hraise. cbn [snd].
    apply client_ensure_run in Hensure as (_ & Ho & Hs & Hd & _). auto.
  - rewrite Hrec. unfold reconciled.
    apply client_ensure_run in Hensure as (_ & Ho & Hs & Hd & _).
    destruct Hsame as (_ & _ & _ & _ & _ & Ho1 & Hs1 & Hd1 & _).
    destruct (_handle_output_update _) as [outs|];
      [destruct (_handle_source_update _) as [srcs|]|];
      destruct c1; simpl in *; repeat split; congruence.
Qed.

(** * Further properties of the poll cycle *)

Lemma client_ensure_connects dev c c0 :
  connected c = false ->
  _client_ensure dev c = (c0, Ok tt) ->
  Device.on_connect dev (username c) (password c) = Ok tt.
Proof.
  intros Hoff Hensure.
  destruct (Device.on_connect dev (username c) (password c)) as [[]|err] eqn:H;
    [done|].
  destruct (client_ensure_raises dev c err Hoff H) as [c0' Hraise]. congruence.
Qed.

Lemma update_data_raises_unchanged dev c c' e :
  _async_update_data dev c = (c', Raise e) ->
  connected c' = false /\ sources c' = sources c /\ data c' = data c.
Proof.
  intros Hrun.
  destruct (update_data_cases dev c)
    as [(c0 & e0 & Hensure & Hraise)|(c0 & c1 & Hensure & Hsame & _ & Hrec)].
  - rewrite Hrun in Hraise. injection Hraise as -> _.
    by apply client_ensure_run in Hensure as (_ & _ & ? & ? & _ & _ & _ & ? & _).
  - apply client_ensure_run in Hensure as (_ & _ & Hs & Hd & _).
    destruct Hsame as (_ & _ & _ & _ & _ & _ & Hs1 & Hd1 & _).
    rewrite Hrun in Hrec. unfold reconciled in Hrec.
    destruct (_handle_output_update _) as [outs|].
    + destruct (_handle_source_update _) as [srcs|]; [discriminate|].
      injection Hrec as -> _. destruct c1. simpl in *.
      repeat split; congruence.
    + injection Hrec as -> _. destruct c1. simpl in *.
      repeat split; congruence.
Qed.

(** X1.  After a poll cycle [connected] says whether the cycle returned:
    true when it handed back a record, false when it raised, whatever the
    flag was before. *)
Theorem connected_tells_cycle_outcome dev c :
  connected (fst (_async_update_data dev c))
  = is_ok (snd (_async_update_data dev c)).
Proof.
  destruct (_async_update_data dev c) as [c' [d|e]] eqn:Hrun; simpl.
  - by apply update_data_Ok in Hrun as (_ & _ & _ & _ & ?).
  - by apply update_data_raises_unchanged in Hrun as (? & _).
Qed.

(** X2.  The client calls of one cycle: [connect] with the stored
    credentials if and only if the coordinator was not connected, then, if
    connecting did not raise, the seven fetches in their fixed order, all
    seven even when some of them raise or reconciliation fails. *)
Theorem cycle_call_sequence dev c :
  calls (fst (_async_update_data dev c))
  = calls c ++
    (if connected c then fetch_calls
     else connect (username c) (password c) ::
          match Device.on_connect dev (username c) (password c) with
          | Ok _ => fetch_calls
          | Raise _ => []
          end).
Proof.
  pose proof (update_data_run dev c) as Hrun.
  destruct (_client_ensure dev c) as [c0 r] eqn:Hensure.
  pose proof (client_ensure_calls _ _ _ _ Hensure) as Hcalls.
  pose proof (client_ensure_run _ _ _ _ Hensure)
    as (Hclient & _ & _ & _ & _ & _ & _ & Hr).
  destruct r as [[]|e].
  - destruct (fetch_status_run dev c0 Hclient) as (c1 & Hfetch & _ & Hc1).
    rewrite (Hrun c1 Hfetch), reconciled_calls, Hc1, Hcalls.
    destruct (connected c) eqn:Hon.
    + by rewrite app_nil_r.
    + rewrite (client_ensure_connects dev c c0 Hon Hensure).
      by rewrite <- app_assoc.
  - rewrite Hrun. simpl. rewrite Hcalls.
    destruct Hr as (_ & -> & _ & err & -> & _). done.
Qed.

(** X3.  A cycle returns whenever connecting does not raise, the source,
    output and CEC fetches answer, both name arrays are non-empty and
    every per-output and per-source array is at least as long as its name
    array: it then stores one [OutputInfo] per output name and one
    [SourceInfo] per source name, and hands back the combined record. *)
Theorem cycle_returns_on_complete_answers dev c os ss cs :
  Device.on_connect dev (username c) (password c) = Ok tt ->
  Device.on_get_output_status dev = Ok os ->
  Device.on_get_source_status dev = Ok ss ->
  Device.on_get_cec_status dev = Ok cs ->
  OutputStatus.output_names os <> [] ->
  SourceStatus.source_names ss <> [] ->
  output_arrays_cover (length (OutputStatus.output_names os)) os ->
  source_arrays_cover (length (SourceStatus.source_names ss)) ss ->
  exists c' outs srcs,
    _async_update_data dev c = (c', Ok (combined_data_of (statuses_of dev))) /\
    outputs c' = Some outs /\ sources c' = Some srcs /\
    length outs = length (OutputStatus.output_names os) /\
    length srcs = length (SourceStatus.source_names ss) /\
    connected c' = true.
Proof.
  intros Hconnect Hout Hsrc Hcec Hon Hsn Hocover Hscover.
  assert (Hso : Statuses.output (statuses_of dev) = Some os)
    by (unfold statuses_of; simpl; by rewrite Hout).
  assert (Hss : Statuses.source (statuses_of dev) = Some ss)
    by (unfold statuses_of; simpl; by rewrite Hsrc).
  assert (Hsc : Statuses.cec (statuses_of dev) = Some cs)
    by (unfold statuses_of; simpl; by rewrite Hcec).
  destruct (handle_output_update_total _ os cs Hso Hsc Hon Hocover)
    as [outs Houts].
  destruct (handle_source_update_total _ ss os cs Hss Hso Hsc Hsn Hscover)
    as [srcs Hsrcs].
  destruct (update_data_cases dev c)
    as [(c0 & e & Hensure & _)|(c0 & c1 & Hensure & Hsame & _ & Hrec)].
  { apply client_ensure_run in Hensure
      as (_ & _ & _ & _ & _ & _ & _ & _ & _ & _ & err & Herr & _).
    congruence. }
  unfold reconciled in Hrec. rewrite Houts, Hsrcs in Hrec.
  apply client_ensure_run in Hensure as (_ & _ & _ & _ & _ & _ & _ & Hc0).
  destruct Hsame as (_ & _ & _ & _ & Hc1 & _).
  apply handle_output_update_Some in Houts as (os' & Hos' & Hlen & _).
  apply handle_source_update_Some in Hsrcs as (ss' & _ & Hss' & _ & Hslen & _).
  simplify_eq.
  eexists _, outs, srcs. split; [exact Hrec|].
  destruct c1. simpl in *. repeat split; congruence.
Qed.

(** X3, on [tv_device] from the initial state. *)
Lemma cycle_returns_on_tv_device :
  exists c' outs srcs,
    _async_update_data tv_device fresh
    = (c', Ok (combined_data_of (statuses_of tv_device))) /\
    outputs c' = Some outs /\ sources c' = Some srcs /\
    length outs = length (OutputStatus.output_names tv_outputs) /\
    length srcs = length (SourceStatus.source_names tv_sources) /\
    connected c' = true.
Proof.
  apply (cycle_returns_on_complete_answers tv_device fresh tv_outputs
           tv_sources tv_cec); try reflexivity; try discriminate.
  - unfold output_arrays_cover. simpl. lia.
  - unfold source_arrays_cover. simpl. lia.
Defined.

(** Membership of a concrete string in a concrete list, by evaluation. *)
Ltac decide_elem := apply (bool_decide_unpack _); vm_compute; exact I.

(** Case analysis on the array reads of one row, in the order of the
    source. *)
Ltac output_row_reads os i tac :=
  destruct (OutputStatus.selected_sources os !! i); simpl; [|tac];
  destruct (OutputStatus.output_cat_names os !! i); simpl; [|tac];
  destruct (OutputStatus.connected_outputs os !! i); simpl; [|tac];
  destruct (OutputStatus.connected_cat_outputs os !! i); simpl; [|tac];
  destruct (OutputStatus.enabled_outputs os !! i); simpl; [|tac];
  destruct (OutputStatus.enabled_cat_outputs os !! i); simpl; [|tac];
  destruct (OutputStatus.selected_output_scalers os !! i); simpl; [|tac].

Ltac source_row_reads ss i tac :=
  destruct (SourceStatus.active_sources ss !! i); simpl; [|tac];
  destruct (SourceStatus.edid_indexes ss !! i); simpl; [|tac].

(** The handlers raise nothing but [IndexError] and [AttributeError]. *)
Lemma output_rows_raise os cec names : forall start acc e,
  for_each (output_row os cec) (enumerate_from start names) acc = Raise e ->
  e = IndexError \/ e = AttributeError.
Proof.
  induction names as [|output_name rest IH]; intros start acc e;
    cbn [for_each enumerate_from]; [discriminate|].
  destruct (output_row os cec acc (start, output_name)) as [acc'|e'] eqn:Hrow.
  - apply IH.
  - intros [= <-]. revert Hrow. unfold output_row, py_index, py_getattr.
    output_row_reads os start ltac:(intros [= <-]; by left).
    destruct cec; simpl; [discriminate|]. intros [= <-]. by right.
Qed.

Lemma source_rows_raise ss out cec names : forall start acc e,
  for_each (source_row ss out cec) (enumerate_from start names) acc = Raise e ->
  e = IndexError \/ e = AttributeError.
Proof.
  induction names as [|source_name rest IH]; intros start acc e;
    cbn [for_each enumerate_from]; [discriminate|].
  destruct (source_row ss out cec acc (start, source_name)) as [acc'|e'] eqn:Hrow.
  - apply IH.
  - intros [= <-]. revert Hrow. unfold source_row, py_index, py_getattr.
    source_row_reads ss start ltac:(intros [= <-]; by left).
    destruct cec; simpl; [|intros [= <-]; by right].
    destruct out; simpl; [discriminate|]. intros [= <-]. by right.
Qed.

Lemma handle_output_update_raise statuses e :
  _handle_output_update statuses = Raise e ->
  e = IndexError \/ e = AttributeError.
Proof.
  unfold _handle_output_update.
  destruct (Statuses.output statuses) as [os|]; [|discriminate].
  destruct (truthy _); [|discriminate].
  destruct (for_each _ _ _) as [rows|e'] eqn:Hrows; simpl; [discriminate|].
  intros [= <-]. eapply output_rows_raise, Hrows.
Qed.

Lemma handle_source_update_raise statuses e :
  _handle_source_update statuses = Raise e ->
  e = IndexError \/ e = AttributeError.
Proof.
  unfold _handle_source_update.
  destruct (Statuses.source statuses) as [ss|]; [|discriminate].
  destruct (truthy _); [|discriminate].
  destruct (for_each _ _ _) as [rows|e'] eqn:Hrows; simpl; [discriminate|].
  intros [= <-]. eapply source_rows_raise, Hrows.
Qed.

(** X4.  The exceptions that can leave a poll cycle are
    [ConfigEntryAuthFailed ERROR_AUTH_FAILED], [UpdateFailed
    ERROR_CONNECT_FAILED] and [UpdateFailed ERROR_UNKNOWN] (these three
    from connecting) and [UpdateFailed ERROR_FETCH_DATA_FAILED] (from
    reconciliation).  [UpdateFailed ERROR_AUTH_FAILED], which the [try] of
    [_async_update_data] provides for, never occurs. *)
Theorem cycle_error_taxonomy dev c :
  match snd (_async_update_data dev c) with
  | Ok _ => True
  | Raise e =>
      e = ConfigEntryAuthFailed ERROR_AUTH_FAILED \/
      e = UpdateFailed ERROR_CONNECT_FAILED \/
      e = UpdateFailed ERROR_UNKNOWN \/
      e = UpdateFailed ERROR_FETCH_DATA_FAILED
  end.
Proof.
  destruct (update_data_cases dev c)
    as [(c0 & e & Hensure & ->)|(c0 & c1 & _ & _ & _ & ->)]; simpl.
  - apply client_ensure_run in Hensure
      as (_ & _ & _ & _ & _ & _ & _ & _ & _ & _ & err & _ & ->).
    destruct err; auto.
  - unfold reconciled.
    destruct (_handle_output_update _) as [outs|e] eqn:Ho; simpl.
    + destruct (_handle_source_update _) as [srcs|e] eqn:Hs; simpl; [done|].
      apply handle_source_update_raise in Hs as [-> | ->]; auto.
    + apply handle_output_update_raise in Ho as [-> | ->]; auto.
Qed.

(** X5.  The CEC fetch is not optional once there are outputs: when the
    output status answers with a non-empty name array and the CEC fetch
    raises, the cycle raises [UpdateFailed] with the fetch-failed message
    and leaves [outputs], [sources] and [data] as they were. *)
Theorem cec_fetch_failure_fails_the_cycle dev c os err :
  Device.on_connect dev (username c) (password c) = Ok tt ->
  Device.on_get_output_status dev = Ok os ->
  OutputStatus.output_names os <> [] ->
  Device.on_get_cec_status dev = Raise err ->
  exists c',
    _async_update_data dev c
    = (c', Raise (UpdateFailed ERROR_FETCH_DATA_FAILED)) /\
    outputs c' = outputs c /\ sources c' = sources c /\ data c' = data c /\
    connected c' = false.
Proof.
  intros Hconnect Hout Hnames Hcec.
  assert (Hraise : exists e, _handle_output_update (statuses_of dev) = Raise e).
  { unfold _handle_output_update, statuses_of.
    cbn [Statuses.output Statuses.cec]. rewrite Hout, Hcec.
    cbn [filter_exception].
    destruct (OutputStatus.output_names os) as [|n0 names]; [done|].
    cbn [truthy enumerate enumerate_from for_each].
    unfold output_row, py_index, py_getattr.
    output_row_reads os 0 ltac:(by eauto).
    eauto. }
  destruct Hraise as [e He].
  destruct (update_data_cases dev c)
    as [(c0 & e0 & Hensure & _)|(c0 & c1 & Hensure & Hsame & _ & Hrec)].
  { apply client_ensure_run in Hensure
      as (_ & _ & _ & _ & _ & _ & _ & _ & _ & _ & err' & Herr & _).
    congruence. }
  unfold reconciled in Hrec. rewrite He in Hrec.
  apply handle_output_update_raise in He.
  apply client_ensure_run in Hensure as (_ & Ho & Hs & Hd & _).
  destruct Hsame as (_ & _ & _ & _ & _ & Ho1 & Hs1 & Hd1 & _).
  eexists. split.
  - rewrite Hrec. by destruct He as [-> | ->].
  - destruct c1. simpl in *. repeat split; congruence.
Qed.

(** X5, on [tv_device] with the CEC fetch raising. *)
Lemma cec_fetch_failure_on_no_cec_device :
  exists c',
    _async_update_data no_cec_device fresh
    = (c', Raise (UpdateFailed ERROR_FETCH_DATA_FAILED)) /\
    outputs c' = outputs fresh /\ sources c' = sources fresh /\
    data c' = data fresh /\ connected c' = false.
Proof.
  apply (cec_fetch_failure_fails_the_cycle no_cec_device fresh tv_outputs
           JtechError); try reflexivity.
  discriminate.
Defined.

(** X6.  The status, network, system and web-title fetches are optional:
    whatever they answer, the cycle returns or raises alike and stores the
    same [outputs] and [sources]. *)
Theorem scalar_fetches_are_optional dev status network system web_details c :
  let dev' := with_scalars dev status network system web_details in
  is_ok (snd (_async_update_data dev' c))
  = is_ok (snd (_async_update_data dev c)) /\
  outputs (fst (_async_update_data dev' c))
  = outputs (fst (_async_update_data dev c)) /\
  sources (fst (_async_update_data dev' c))
  = sources (fst (_async_update_data dev c)).
Proof.
  intros dev'.
  assert (Hens : _client_ensure dev' c = _client_ensure dev c) by reflexivity.
  assert (Ho : _handle_output_update (statuses_of dev')
               = _handle_output_update (statuses_of dev)) by reflexivity.
  assert (Hs : _handle_source_update (statuses_of dev')
               = _handle_source_update (statuses_of dev)) by reflexivity.
  pose proof (update_data_run dev c) as Hrun.
  pose proof (update_data_run dev' c) as Hrun'. rewrite Hens in Hrun'.
  destruct (_client_ensure dev c) as [c0 [[]|e]] eqn:Hensure.
  - apply client_ensure_run in Hensure as (Hclient & _).
    destruct (fetch_status_run dev c0 Hclient)
      as (c1 & Hfetch & Hsame & Hcalls).
    destruct (fetch_status_run dev' c0 Hclient)
      as (c1' & Hfetch' & Hsame' & Hcalls').
    rewrite (Hrun c1 Hfetch), (Hrun' c1' Hfetch').
    unfold reconciled. rewrite Ho, Hs.
    destruct Hsame as (_ & _ & _ & _ & _ & Ho1 & Hs1 & _).
    destruct Hsame' as (_ & _ & _ & _ & _ & Ho1' & Hs1' & _).
    destruct (_handle_output_update _) as [outs|];
      [destruct (_handle_source_update _) as [srcs|]|];
      destruct c1, c1'; simpl in *; repeat split; congruence.
  - by rewrite Hrun, Hrun'.
Qed.

(** * Further properties of reconciliation *)

(** X7.  The source list partitions the routed outputs: output number
    [o + 1] is listed under the source at position [s] exactly when the
    fetched selection at position [o] is [s], so no output number is
    listed under two sources, and an output whose selection is not the
    position of any source is listed nowhere. *)
Theorem sources_partition_outputs statuses srcs :
  _handle_source_update statuses = Ok (Some srcs) ->
  exists os, Statuses.output statuses = Some os /\
    (forall s1 s2 a b x,
       srcs !! s1 = Some a -> srcs !! s2 = Some b ->
       x ∈ SourceInfo.outputs a -> x ∈ SourceInfo.outputs b -> s1 = s2) /\
    (forall (o : nat) v,
       OutputStatus.selected_sources os !! o = Some v ->
       (forall s src, srcs !! s = Some src ->
          (Z.of_nat o + 1)%Z ∈ SourceInfo.outputs src <-> v = Z.of_nat s) /\
       ((v < 0 \/ Z.of_nat (length srcs) <= v)%Z ->
        forall s src, srcs !! s = Some src ->
          (Z.of_nat o + 1)%Z ∉ SourceInfo.outputs src)).
Proof.
  intros Hsrcs.
  destruct (source_outputs_mixed_numbering _ _ Hsrcs) as (os & Hos & Hin).
  exists os. split; [done|]. split.
  - intros s1 s2 a b x Ha Hb Hxa Hxb.
    apply (Hin s1 a Ha) in Hxa as (o1 & Ho1 & ->).
    apply (Hin s2 b Hb) in Hxb as (o2 & Ho2 & Heq).
    assert (o1 = o2) by lia. subst o2. rewrite Ho1 in Ho2.
    injection Ho2 as Heq'. lia.
  - intros o v Hv.
    assert (Hiff : forall s src, srcs !! s = Some src ->
              (Z.of_nat o + 1)%Z ∈ SourceInfo.outputs src <-> v = Z.of_nat s).
    { intros s src Hsrc. rewrite (Hin s src Hsrc). split.
      - intros (o' & Ho' & Heq). assert (o' = o) by lia. subst o'. congruence.
      - intros ->. eauto. }
    split; [exact Hiff|].
    intros Hout s src Hsrc Hx. apply (Hiff s src Hsrc) in Hx.
    apply lookup_lt_Some in Hsrc. lia.
Qed.

(** X7, on the statuses fetched from [tv_device]. *)
Lemma sources_partition_outputs_on_tv_device :
  exists os, Statuses.output (statuses_of tv_device) = Some os /\
    (forall s1 s2 a b x,
       tv_reconciled_sources !! s1 = Some a ->
       tv_reconciled_sources !! s2 = Some b ->
       x ∈ SourceInfo.outputs a -> x ∈ SourceInfo.outputs b -> s1 = s2) /\
    (forall (o : nat) v,
       OutputStatus.selected_sources os !! o = Some v ->
       (forall s src, tv_reconciled_sources !! s = Some src ->
          (Z.of_nat o + 1)%Z ∈ SourceInfo.outputs src <-> v = Z.of_nat s) /\
       ((v < 0 \/ Z.of_nat (length tv_reconciled_sources) <= v)%Z ->
        forall s src, tv_reconciled_sources !! s = Some src ->
          (Z.of_nat o + 1)%Z ∉ SourceInfo.outputs src)).
Proof.
  apply (sources_partition_outputs (statuses_of tv_device)). reflexivity.
Defined.

(** X8.  Reconciliation keeps the device's order and ignores surplus
    entries: the names of the output list are the fetched output names,
    the routed sources are the first entries of [selected_sources], and
    the names of the source list are the fetched source names. *)
Theorem reconciliation_keeps_order statuses outs srcs :
  _handle_output_update statuses = Ok (Some outs) ->
  _handle_source_update statuses = Ok (Some srcs) ->
  exists os ss,
    Statuses.output statuses = Some os /\
    Statuses.source statuses = Some ss /\
    OutputInfo.name <$> outs = OutputStatus.output_names os /\
    OutputInfo.source <$> outs
    = take (length (OutputStatus.output_names os))
        (OutputStatus.selected_sources os) /\
    SourceInfo.name <$> srcs = SourceStatus.source_names ss.
Proof.
  intros (os & Hos & Hlen & Hrows)%handle_output_update_Some
         (ss & os' & Hss & _ & Hslen & Hsrows)%handle_source_update_Some.
  exists os, ss. split; [done|]. split; [done|]. repeat split.
  - apply list_eq. intros i. rewrite list_lookup_fmap.
    destruct (outs !! i) as [o|] eqn:Ho; simpl.
    + by destruct (Hrows i o Ho) as (-> & _).
    + symmetry. apply lookup_ge_None. apply lookup_ge_None in Ho. lia.
  - apply list_eq. intros i. rewrite list_lookup_fmap.
    destruct (outs !! i) as [o|] eqn:Ho; simpl.
    + destruct (Hrows i o Ho) as (_ & Hsel & _).
      apply lookup_lt_Some in Ho.
      rewrite lookup_take_lt by lia. done.
    + symmetry. apply lookup_ge_None. apply lookup_ge_None in Ho.
      rewrite length_take. lia.
  - apply list_eq. intros i. rewrite list_lookup_fmap.
    destruct (srcs !! i) as [s|] eqn:Hs; simpl.
    + by destruct (Hsrows i s Hs) as (-> & _).
    + symmetry. apply lookup_ge_None. apply lookup_ge_None in Hs. lia.
Qed.

(** X8, on the statuses fetched from [tv_device]. *)
Lemma reconciliation_keeps_order_on_tv_device :
  exists os ss,
    Statuses.output (statuses_of tv_device) = Some os /\
    Statuses.source (statuses_of tv_device) = Some ss /\
    OutputInfo.name <$> tv_reconciled_outputs = OutputStatus.output_names os /\
    OutputInfo.source <$> tv_reconciled_outputs
    = take (length (OutputStatus.output_names os))
        (OutputStatus.selected_sources os) /\
    SourceInfo.name <$> tv_reconciled_sources = SourceStatus.source_names ss.
Proof.
  apply (reconciliation_keeps_order (statuses_of tv_device)); reflexivity.
Defined.

(** X9.  A device without names: when the output fetch and the source
    fetch each raise or answer with an empty name array, the cycle returns
    (whatever the CEC fetch does) and stores [None], not an empty list, in
    both [outputs] and [sources]; setting up the entities and reading the
    source list then raise. *)
Theorem cycle_without_names dev c :
  Device.on_connect dev (username c) (password c) = Ok tt ->
  no_names (Device.on_get_output_status dev) OutputStatus.output_names ->
  no_names (Device.on_get_source_status dev) SourceStatus.source_names ->
  exists c',
    _async_update_data dev c = (c', Ok (combined_data_of (statuses_of dev))) /\
    outputs c' = None /\ sources c' = None /\
    (forall entry_options,
       is_ok (MediaPlayer.async_setup_entry entry_options c') = false) /\
    (forall player, is_ok (MediaPlayer.source_list player c') = false).
Proof.
  intros Hconnect Hout Hsrc.
  assert (Ho : _handle_output_update (statuses_of dev) = Ok None).
  { unfold _handle_output_update, statuses_of. cbn [Statuses.output].
    destruct (Device.on_get_output_status dev) as [os|]; simpl in *; [|done].
    by rewrite Hout. }
  assert (Hs : _handle_source_update (statuses_of dev) = Ok None).
  { unfold _handle_source_update, statuses_of. cbn [Statuses.source].
    destruct (Device.on_get_source_status dev) as [ss|]; simpl in *; [|done].
    by rewrite Hsrc. }
  destruct (update_data_cases dev c)
    as [(c0 & e0 & Hensure & _)|(c0 & c1 & _ & _ & _ & Hrec)].
  { apply client_ensure_run in Hensure
      as (_ & _ & _ & _ & _ & _ & _ & _ & _ & _ & err' & Herr & _).
    congruence. }
  unfold reconciled in Hrec. rewrite Ho, Hs in Hrec.
  eexists. split; [exact Hrec|]. destruct c1. simpl.
  repeat split; intros; reflexivity.
Qed.

(** X9, on a device whose two name arrays are empty. *)
Lemma cycle_without_names_on_nameless_device :
  exists c',
    _async_update_data nameless_device fresh
    = (c', Ok (combined_data_of (statuses_of nameless_device))) /\
    outputs c' = None /\ sources c' = None /\
    (forall entry_options,
       is_ok (MediaPlayer.async_setup_entry entry_options c') = false) /\
    (forall player, is_ok (MediaPlayer.source_list player c') = false).
Proof.
  apply (cycle_without_names nameless_device fresh); reflexivity.
Defined.

(** X10.  Before the first poll cycle the client does not exist: each of
    the nine command methods raises [AttributeError] and leaves the
    coordinator, its trace of calls included, as it was. *)
Theorem commands_need_the_client dev c (output source command : Z) :
  _client c = false ->
  async_enable_output dev output c = (c, Raise AttributeError) /\
  async_disable_output dev output c = (c, Raise AttributeError) /\
  async_enable_cat_output dev output c = (c, Raise AttributeError) /\
  async_disable_cat_output dev output c = (c, Raise AttributeError) /\
  async_select_source dev output source c = (c, Raise AttributeError) /\
  async_send_cec_output dev output command c = (c, Raise AttributeError) /\
  async_send_cec_source dev source command c = (c, Raise AttributeError) /\
  async_power_on dev c = (c, Raise AttributeError) /\
  async_power_off dev c = (c, Raise AttributeError).
Proof.
  intros Hclient.
  assert (H : forall k (answer : result bool),
            client_call k answer c = (c, Raise AttributeError)).
  { intros k answer. unfold client_call, bind, get, raise. by rewrite Hclient. }
  repeat split; apply H.
Qed.

(** X10, in the state [__init__] leaves. *)
Lemma commands_need_the_client_when_fresh :
  async_enable_output tv_device 1 fresh = (fresh, Raise AttributeError) /\
  async_disable_output tv_device 1 fresh = (fresh, Raise AttributeError) /\
  async_enable_cat_output tv_device 1 fresh = (fresh, Raise AttributeError) /\
  async_disable_cat_output tv_device 1 fresh = (fresh, Raise AttributeError) /\
  async_select_source tv_device 1 2 fresh = (fresh, Raise AttributeError) /\
  async_send_cec_output tv_device 1 5 fresh = (fresh, Raise AttributeError) /\
  async_send_cec_source tv_device 2 5 fresh = (fresh, Raise AttributeError) /\
  async_power_on tv_device fresh = (fresh, Raise AttributeError) /\
  async_power_off tv_device fresh = (fresh, Raise AttributeError).
Proof.
  apply (commands_need_the_client tv_device fresh 1 2 5). reflexivity.
Defined.

(** X11.  The combined record holds no key beyond the sixteen of the four
    guarded blocks, whatever the fetches answered. *)
Theorem combined_record_keys statuses k :
  is_Some (combined_data_of statuses !! k) -> k ∈ combined_keys.
Proof.
  unfold combined_data_of, combine_web_details, combine_system,
    combine_network, combine_status, combined_keys.
  destruct (Statuses.web_details statuses), (Statuses.system statuses),
    (Statuses.network statuses), (Statuses.status statuses);
    intros [v Hv];
    repeat (apply lookup_insert_Some in Hv as [[<- _]|[_ Hv]];
            [decide_elem|]);
    by rewrite lookup_empty in Hv.
Qed.

(** X11, for the key [power] of the record fetched from [tv_device]. *)
Lemma combined_record_keys_on_tv_device : "power" ∈ combined_keys.
Proof.
  apply (combined_record_keys (statuses_of tv_device) "power").
  exists (VBool true). vm_compute. reflexivity.
Defined.

(** * The alternate coordinator *)

Lemma touches_ret {A} K P (a : A) : touches K P (ret a).
Proof.
  intros lc. simpl. repeat split; try done. exists []. by rewrite app_nil_r.
Qed.

Lemma touches_raise {A} K P e : touches K P (@raise Legacy.t A e).
Proof.
  intros lc. simpl. repeat split; try done. exists []. by rewrite app_nil_r.
Qed.

Lemma touches_get K P : touches K P (@get Legacy.t).
Proof.
  intros lc. simpl. repeat split; try done. exists []. by rewrite app_nil_r.
Qed.

Lemma touches_setattr K P name v : name ∈ K -> touches K P (Legacy.setattr name v).
Proof.
  intros Hin lc. simpl. repeat split; try done.
  - exists []. by rewrite app_nil_r.
  - intros k Hk. unfold Legacy.getattr. simpl.
    apply lookup_insert_ne. intros ->. done.
Qed.

Lemma touches_client_call {A} K (P : call -> Prop) k (answer : result A) :
  P k -> touches K P (Legacy.client_call k answer).
Proof.
  intros HP lc. unfold Legacy.client_call, bind, modify, lift. simpl.
  repeat split; try done. exists [k]. split; [done|]. by constructor.
Qed.

Lemma touches_bind {A B} K P (m : prog Legacy.t A) (f : A -> prog Legacy.t B) :
  touches K P m -> (forall a, touches K P (f a)) -> touches K P (bind m f).
Proof.
  intros Hm Hf lc. unfold bind.
  specialize (Hm lc). destruct (m lc) as [lc1 [a|e]]; simpl in Hm; [|done].
  specialize (Hf a lc1). destruct Hm as (Hu & Hp & Hr & (new & Hc & Hnew) & Hk).
  destruct Hf as (Hu' & Hp' & Hr' & (new' & Hc' & Hnew') & Hk').
  repeat split; try congruence.
  - exists (new ++ new'). rewrite Hc', Hc, app_assoc. split; [done|].
    by apply Forall_app.
  - intros k Hkk. rewrite Hk' by done. by apply Hk.
Qed.

Lemma touches_when K P b (p : prog Legacy.t unit) :
  touches K P p -> touches K P (Legacy.when b p).
Proof. destruct b; [done|]. intros _. apply touches_ret. Qed.

Lemma touches_try_except {A} K P (body : prog Legacy.t A) handler :
  touches K P body -> (forall e, touches K P (handler e)) ->
  touches K P (try_except body handler).
Proof.
  intros Hb Hh lc. unfold try_except.
  specialize (Hb lc). destruct (body lc) as [lc1 [a|e]]; simpl in Hb; [done|].
  specialize (Hh e lc1). destruct Hb as (Hu & Hp & Hr & (new & Hc & Hnew) & Hk).
  destruct Hh as (Hu' & Hp' & Hr' & (new' & Hc' & Hnew') & Hk').
  repeat split; try congruence.
  - exists (new ++ new'). rewrite Hc', Hc, app_assoc. split; [done|].
    by apply Forall_app.
  - intros k Hkk. rewrite Hk' by done. by apply Hk.
Qed.

Ltac touches_auto :=
  repeat first
    [ apply touches_ret
    | apply touches_raise
    | apply touches_get
    | apply touches_setattr; decide_elem
    | apply touches_client_call; exact I
    | apply touches_when
    | apply touches_bind; [|intros ?]
    | apply touches_try_except; [|intros ?] ].

Lemma touches_mono {A} K K' P (p : prog Legacy.t A) :
  K ⊆ K' -> touches K P p -> touches K' P p.
Proof.
  intros Hsub Hp lc. destruct (Hp lc) as (? & ? & ? & ? & Hk).
  repeat split; try done. intros k Hk'. apply Hk. intros Hin. by apply Hk', Hsub.
Qed.

Ltac sublist_keys :=
  intros ? Hin;
  repeat (apply elem_of_cons in Hin as [->|Hin]; [decide_elem|]);
  by apply elem_of_nil in Hin.

Lemma update_status_touches dev :
  touches status_keys legacy_cycle_call (Legacy.async_update_status dev).
Proof. unfold Legacy.async_update_status. touches_auto. Qed.

Lemma update_video_status_touches dev :
  touches video_keys legacy_cycle_call (Legacy.async_update_video_status dev).
Proof. unfold Legacy.async_update_video_status. touches_auto. Qed.

Lemma update_source_status_touches dev :
  touches source_keys legacy_cycle_call
    (Legacy.async_update_source_status dev).
Proof. unfold Legacy.async_update_source_status. touches_auto. Qed.

Lemma update_output_status_touches dev :
  touches output_keys legacy_cycle_call
    (Legacy.async_update_output_status dev).
Proof. unfold Legacy.async_update_output_status. touches_auto. Qed.

Lemma update_system_status_touches dev :
  touches system_keys legacy_cycle_call
    (Legacy.async_update_system_status dev).
Proof. unfold Legacy.async_update_system_status. touches_auto. Qed.

Lemma legacy_cycle_touches dev :
  touches legacy_cycle_keys legacy_cycle_call (Legacy._async_update_data dev).
Proof.
  unfold Legacy._async_update_data.
  apply touches_try_except.
  - apply touches_bind; [apply touches_get|]. intros c.
    apply touches_bind.
    + apply touches_when. apply touches_bind.
      * apply touches_try_except; [touches_auto|].
        intros e. destruct e; touches_auto.
      * intros _. apply touches_bind; [touches_auto|]. intros _.
        apply touches_bind; [touches_auto|]. intros _.
        eapply touches_mono; [|apply update_status_touches]. sublist_keys.
    + intros _. apply touches_bind;
        [eapply touches_mono; [|apply update_video_status_touches];
         sublist_keys|].
      intros _. apply touches_bind;
        [eapply touches_mono; [|apply update_source_status_touches];
         sublist_keys|].
      intros _. apply touches_bind;
        [eapply touches_mono; [|apply update_output_status_touches];
         sublist_keys|].
      intros _. eapply touches_mono; [|apply update_system_status_touches].
      sublist_keys.
  - intros e. destruct e; touches_auto.
Qed.

(** X12.  A cycle of the alternate coordinator never fetches the CEC
    status (nor the network or the web title): the calls it adds are
    [connect] and the five status fetches, and the two CEC-selected lists,
    like every attribute the cycle does not assign, keep their value. *)
Theorem legacy_cycle_never_fetches_cec dev lc :
  let lc' := fst (Legacy._async_update_data dev lc) in
  (exists new,
     Legacy.calls lc' = Legacy.calls lc ++ new /\
     Forall legacy_cycle_call new /\
     (get_cec_status ∉ new) /\ (get_network ∉ new) /\
     (get_web_details ∉ new)) /\
  Legacy.getattr "sources_cec_selected" lc'
  = Legacy.getattr "sources_cec_selected" lc /\
  Legacy.getattr "outputs_cec_selected" lc'
  = Legacy.getattr "outputs_cec_selected" lc /\
  Legacy.refresh_requests lc' = Legacy.refresh_requests lc.
Proof.
  intros lc'. subst lc'.
  destruct (legacy_cycle_touches dev lc)
    as (_ & _ & Hr & (new & Hc & Hnew) & Hk).
  split.
  - exists new. split; [done|]. split; [done|].
    repeat split; intros Hin;
      apply (proj1 (Forall_forall _ _) Hnew) in Hin; exact Hin.
  - split; [|split; [|done]]; apply Hk; decide_elem.
Qed.

(** X13.  The only exception that can leave a cycle of the alternate
    coordinator is [NameError]: the second handler is written
    [except err:] with [err] unbound, so neither [ConfigEntryAuthFailed]
    nor [UpdateFailed] is ever raised out of it. *)
Theorem legacy_cycle_raises_only_NameError dev lc :
  match snd (Legacy._async_update_data dev lc) with
  | Ok _ => True
  | Raise e => e = NameError
  end.
Proof.
  unfold Legacy._async_update_data, try_except.
  match goal with |- context [?body lc] =>
    match type of body with prog Legacy.t unit =>
      destruct (body lc) as [lc1 [[]|e]] end end; [done|].
  destruct e; simpl; done.
Qed.

(** X14.  Refused credentials in the alternate coordinator: when it is
    not connected and [connect] raises the authentication error, the
    cycle makes that one call, writes no attribute (so [power] and
    [connected] are not reset) and raises [NameError]. *)
Theorem legacy_bad_credentials dev lc :
  Legacy.is_true (Legacy.getattr "connected" lc) = false ->
  Device.on_connect dev (Legacy.user lc) (Legacy.password lc)
  = Raise JtechAuthError ->
  exists lc',
    Legacy._async_update_data dev lc = (lc', Raise NameError) /\
    Legacy.attrs lc' = Legacy.attrs lc /\
    Legacy.calls lc'
    = Legacy.calls lc ++ [connect (Legacy.user lc) (Legacy.password lc)].
Proof.
  intros Hoff Hconnect. destruct lc as [u p attrs ks rr].
  unfold Legacy.getattr in Hoff. cbn [Legacy.attrs] in Hoff.
  cbn [Legacy.user Legacy.password] in Hconnect.
  unfold Legacy._async_update_data, Legacy.when, Legacy.client_call,
    try_except, bind, get, modify, lift.
  unfold Legacy.getattr at 1. cbn [Legacy.attrs]. rewrite Hoff.
  cbn [negb Legacy.log_call Legacy.user Legacy.password].
  rewrite Hconnect. eexists. split; [reflexivity|]. by split.
Qed.

(** X14, on [locked_device] from the initial state. *)
Lemma legacy_bad_credentials_on_locked_device :
  exists lc',
    Legacy._async_update_data locked_device legacy_fresh
    = (lc', Raise NameError) /\
    Legacy.attrs lc' = Legacy.attrs legacy_fresh /\
    Legacy.calls lc'
    = Legacy.calls legacy_fresh ++
      [connect (Legacy.user legacy_fresh) (Legacy.password legacy_fresh)].
Proof.
  apply (legacy_bad_credentials locked_device legacy_fresh).
  - vm_compute. reflexivity.
  - reflexivity.
Defined.

Lemma bind_run {S A B} (m : prog S A) (k : A -> prog S B) s a :
  snd (m s) = Ok a -> bind m k s = k a (fst (m s)).
Proof. unfold bind. destruct (m s) as [s' r]. simpl. by intros ->. Qed.

Ltac legacy_fetch_run H :=
  unfold Legacy.client_call, Legacy.setattr, Legacy.when, Legacy.getattr,
    bind, modify, lift, ret;
  cbn [Legacy.log_call Legacy.user Legacy.password Legacy.attrs Legacy.calls
       Legacy.refresh_requests fst snd];
  rewrite H;
  repeat match goal with
         | |- context [if ?b then _ else _] => destruct b
         end;
  cbn [Legacy.attrs Legacy.calls fst snd];
  repeat apply conj; try reflexivity; by simplify_map_eq.

(** What a fetch that answers does, from any state. *)
Lemma update_status_answers dev lc st :
  Device.on_get_status dev = Ok st ->
  snd (Legacy.async_update_status dev lc) = Ok tt /\
  Legacy.calls (fst (Legacy.async_update_status dev lc))
  = Legacy.calls lc ++ [get_status] /\
  Legacy.getattr "power" (fst (Legacy.async_update_status dev lc))
  = Some (VBool (Status.power st)).
Proof.
  intros H. unfold Legacy.async_update_status. legacy_fetch_run H.
Qed.

Lemma update_video_status_answers dev lc vs :
  Device.on_get_video_status dev = Ok vs ->
  snd (Legacy.async_update_video_status dev lc) = Ok tt /\
  Legacy.calls (fst (Legacy.async_update_video_status dev lc))
  = Legacy.calls lc ++ [get_video_status] /\
  Legacy.getattr "power" (fst (Legacy.async_update_video_status dev lc))
  = Some (VBool (VideoStatus.power vs)) /\
  Legacy.getattr "outputs_names" (fst (Legacy.async_update_video_status dev lc))
  = if truthy (VideoStatus.output_names vs)
    then Some (VStrs (VideoStatus.output_names vs))
    else Legacy.getattr "outputs_names" lc.
Proof.
  intros H. unfold Legacy.async_update_video_status. legacy_fetch_run H.
Qed.

Lemma update_source_status_answers dev lc ss :
  Device.on_get_source_status dev = Ok ss ->
  snd (Legacy.async_update_source_status dev lc) = Ok tt /\
  Legacy.calls (fst (Legacy.async_update_source_status dev lc))
  = Legacy.calls lc ++ [get_source_status] /\
  Legacy.getattr "power" (fst (Legacy.async_update_source_status dev lc))
  = Some (VBool (SourceStatus.power ss)).
Proof.
  intros H. unfold Legacy.async_update_source_status. legacy_fetch_run H.
Qed.

Lemma update_output_status_answers dev lc os :
  Device.on_get_output_status dev = Ok os ->
  snd (Legacy.async_update_output_status dev lc) = Ok tt /\
  Legacy.calls (fst (Legacy.async_update_output_status dev lc))
  = Legacy.calls lc ++ [get_output_status] /\
  Legacy.getattr "power" (fst (Legacy.async_update_output_status dev lc))
  = Some (VBool (OutputStatus.power os)) /\
  Legacy.getattr "outputs_names"
    (fst (Legacy.async_update_output_status dev lc))
  = if truthy (OutputStatus.output_names os)
    then Some (VStrs (OutputStatus.output_names os))
    else Legacy.getattr "outputs_names" lc.
Proof.
  intros H. unfold Legacy.async_update_output_status. legacy_fetch_run H.
Qed.

Lemma update_system_status_answers dev lc sy :
  Device.on_get_system_status dev = Ok sy ->
  snd (Legacy.async_update_system_status dev lc) = Ok tt /\
  Legacy.calls (fst (Legacy.async_update_system_status dev lc))
  = Legacy.calls lc ++ [get_system_status] /\
  Legacy.getattr "power" (fst (Legacy.async_update_system_status dev lc))
  = Some (VBool (SystemStatus.power sy)).
Proof.
  intros H. unfold Legacy.async_update_system_status. legacy_fetch_run H.
Qed.

(** The stage of the cycle that connects, when it is entered and both
    [connect] and [get_status] answer. *)
Lemma legacy_connect_stage dev lc st :
  Legacy.is_true (Legacy.getattr "connected" lc) = false ->
  Device.on_connect dev (Legacy.user lc) (Legacy.password lc) = Ok tt ->
  Device.on_get_status dev = Ok st ->
  exists lc0,
    Legacy.when (negb (Legacy.is_true (Legacy.getattr "connected" lc)))
      (try_except
         (Legacy.client_call
            (connect (Legacy.user lc) (Legacy.password lc))
            (Device.on_connect dev (Legacy.user lc) (Legacy.password lc)) ;;;
          Legacy.setattr "connected" (VBool true))
         (fun err =>
            match err with
            | JtechAuthError => raise (ConfigEntryAuthFailed "")
            | _ => raise err
            end) ;;;
       Legacy.setattr "sources_count" (VInt (Device._sources_count dev)) ;;;
       Legacy.setattr "outputs_count" (VInt (Device._outputs_count dev)) ;;;
       Legacy.async_update_status dev) lc = (lc0, Ok tt) /\
    Legacy.calls lc0
    = Legacy.calls lc ++
      [connect (Legacy.user lc) (Legacy.password lc); get_status] /\
    Legacy.getattr "connected" lc0 = Some (VBool true) /\
    Legacy.getattr "outputs_names" lc0 = Legacy.getattr "outputs_names" lc.
Proof.
  intros Hoff Hconnect Hst. rewrite Hoff. cbn [negb Legacy.when].
  unfold try_except, Legacy.client_call.
  unfold bind at 1 2 3 4 5. unfold modify at 1, lift at 1.
  cbn [Legacy.log_call Legacy.user Legacy.password].
  rewrite Hconnect. unfold Legacy.setattr at 1 2 3. unfold modify, bind.
  cbn [Legacy.user Legacy.password Legacy.attrs Legacy.calls
       Legacy.refresh_requests].
  match goal with |- context [Legacy.async_update_status dev ?s] =>
    set (lc1 := s) end.
  destruct (update_status_answers dev lc1 st Hst) as (Hok & Hcalls & _).
  destruct (update_status_touches dev lc1) as (_ & _ & _ & _ & Hk).
  destruct (Legacy.async_update_status dev lc1) as [lc0 r] eqn:Hrun.
  simpl in Hok, Hcalls, Hk. subst r. exists lc0. split; [done|].
  split; [|split].
  - rewrite Hcalls. subst lc1. simpl. by rewrite <- app_assoc.
  - rewrite Hk by decide_elem. subst lc1. unfold Legacy.getattr. simpl.
    by simplify_map_eq.
  - rewrite Hk by decide_elem. subst lc1. unfold Legacy.getattr. simpl.
    by simplify_map_eq.
Qed.

(** A cycle of the alternate coordinator on answers that are all there:
    the stages it goes through. *)
Lemma legacy_complete_cycle_run dev lc vs ss os sy :
  (Legacy.is_true (Legacy.getattr "connected" lc) = false ->
   Device.on_connect dev (Legacy.user lc) (Legacy.password lc) = Ok tt /\
   is_ok (Device.on_get_status dev) = true) ->
  Device.on_get_video_status dev = Ok vs ->
  Device.on_get_source_status dev = Ok ss ->
  Device.on_get_output_status dev = Ok os ->
  Device.on_get_system_status dev = Ok sy ->
  exists lc0,
    Legacy.calls lc0
    = Legacy.calls lc ++
      (if Legacy.is_true (Legacy.getattr "connected" lc) then []
       else [connect (Legacy.user lc) (Legacy.password lc); get_status]) /\
    Legacy.getattr "connected" lc0 = Some (VBool true) /\
    Legacy.getattr "outputs_names" lc0 = Legacy.getattr "outputs_names" lc /\
    Legacy._async_update_data dev lc
    = (fst (Legacy.async_update_system_status dev
         (fst (Legacy.async_update_output_status dev
            (fst (Legacy.async_update_source_status dev
               (fst (Legacy.async_update_video_status dev lc0))))))),
       Ok tt).
Proof.
  intros Hfirst Hvs Hss Hos Hsy.
  assert (Hstage : exists lc0,
    Legacy.when (negb (Legacy.is_true (Legacy.getattr "connected" lc)))
      (try_except
         (Legacy.client_call
            (connect (Legacy.user lc) (Legacy.password lc))
            (Device.on_connect dev (Legacy.user lc) (Legacy.password lc)) ;;;
          Legacy.setattr "connected" (VBool true))
         (fun err =>
            match err with
            | JtechAuthError => raise (ConfigEntryAuthFailed "")
            | _ => raise err
            end) ;;;
       Legacy.setattr "sources_count" (VInt (Device._sources_count dev)) ;;;
       Legacy.setattr "outputs_count" (VInt (Device._outputs_count dev)) ;;;
       Legacy.async_update_status dev) lc = (lc0, Ok tt) /\
    Legacy.calls lc0
    = Legacy.calls lc ++
      (if Legacy.is_true (Legacy.getattr "connected" lc) then []
       else [connect (Legacy.user lc) (Legacy.password lc); get_status]) /\
    Legacy.getattr "connected" lc0 = Some (VBool true) /\
    Legacy.getattr "outputs_names" lc0 = Legacy.getattr "outputs_names" lc).
  { destruct (Legacy.is_true (Legacy.getattr "connected" lc)) eqn:Hon.
    - exists lc. cbn [negb Legacy.when]. split; [done|].
      rewrite app_nil_r. split; [done|]. split; [|done].
      unfold Legacy.is_true in Hon.
      destruct (Legacy.getattr "connected" lc) as [[[]| | | | |]|]; done.
    - destruct (Hfirst eq_refl) as [Hconnect Hst].
      destruct (Device.on_get_status dev) as [st|] eqn:Hstatus; [|done].
      pose proof (legacy_connect_stage dev lc st Hon Hconnect Hstatus) as H.
      rewrite Hon in H. exact H. }
  destruct Hstage as (lc0 & Hstage & Hcalls & Hconn & Hnames).
  exists lc0. repeat (split; [done|]).
  unfold Legacy._async_update_data. unfold try_except at 1.
  unfold bind at 1. unfold get. cbv beta iota. unfold bind at 1.
  rewrite Hstage.
  rewrite (bind_run _ _ _ tt)
    by apply (update_video_status_answers dev _ vs Hvs).
  rewrite (bind_run _ _ _ tt)
    by apply (update_source_status_answers dev _ ss Hss).
  rewrite (bind_run _ _ _ tt)
    by apply (update_output_status_answers dev _ os Hos).
  pose proof (update_system_status_answers dev
    (fst (Legacy.async_update_output_status dev
       (fst (Legacy.async_update_source_status dev
          (fst (Legacy.async_update_video_status dev lc0)))))) sy Hsy)
    as (Hok & _).
  destruct (Legacy.async_update_system_status dev _) as [lc' r].
  simpl in Hok. by subst r.
Qed.

(** X15.  A complete cycle of the alternate coordinator (every fetch it
    makes answers): it returns without an exception; the fetches are
    [connect] and [get_status] only if it was not connected, then video,
    source, output and system status, in this order; [connected] is true
    afterwards and [power] is the value of the system status, the last
    endpoint fetched. *)
Theorem legacy_complete_cycle dev lc vs ss os sy :
  (Legacy.is_true (Legacy.getattr "connected" lc) = false ->
   Device.on_connect dev (Legacy.user lc) (Legacy.password lc) = Ok tt /\
   is_ok (Device.on_get_status dev) = true) ->
  Device.on_get_video_status dev = Ok vs ->
  Device.on_get_source_status dev = Ok ss ->
  Device.on_get_output_status dev = Ok os ->
  Device.on_get_system_status dev = Ok sy ->
  exists lc',
    Legacy._async_update_data dev lc = (lc', Ok tt) /\
    Legacy.calls lc'
    = Legacy.calls lc ++
      legacy_fetches (Legacy.is_true (Legacy.getattr "connected" lc))
        (Legacy.user lc) (Legacy.password lc) /\
    Legacy.getattr "connected" lc' = Some (VBool true) /\
    Legacy.getattr "power" lc' = Some (VBool (SystemStatus.power sy)).
Proof.
  intros Hfirst Hvs Hss Hos Hsy.
  destruct (legacy_complete_cycle_run dev lc vs ss os sy Hfirst Hvs Hss Hos Hsy)
    as (lc0 & Hcalls & Hconn & _ & Hrun).
  eexists. split; [exact Hrun|]. split; [|split].
  - rewrite (proj1 (proj2 (update_system_status_answers dev _ sy Hsy))).
    rewrite (proj1 (proj2 (update_output_status_answers dev _ os Hos))).
    rewrite (proj1 (proj2 (update_source_status_answers dev _ ss Hss))).
    rewrite (proj1 (proj2 (update_video_status_answers dev _ vs Hvs))).
    rewrite Hcalls. unfold legacy_fetches. by rewrite <- !app_assoc.
  - destruct (update_system_status_touches dev
      (fst (Legacy.async_update_output_status dev
         (fst (Legacy.async_update_source_status dev
            (fst (Legacy.async_update_video_status dev lc0)))))))
      as (_ & _ & _ & _ & ->); [|decide_elem].
    destruct (update_output_status_touches dev
      (fst (Legacy.async_update_source_status dev
         (fst (Legacy.async_update_video_status dev lc0)))))
      as (_ & _ & _ & _ & ->); [|decide_elem].
    destruct (update_source_status_touches dev
      (fst (Legacy.async_update_video_status dev lc0)))
      as (_ & _ & _ & _ & ->); [|decide_elem].
    destruct (update_video_status_touches dev lc0)
      as (_ & _ & _ & _ & ->); [|decide_elem].
    done.
  - apply (update_system_status_answers dev _ sy Hsy).
Qed.

(** X15, on [tv_device] from the initial state. *)
Lemma legacy_complete_cycle_on_tv_device :
  exists lc',
    Legacy._async_update_data tv_device legacy_fresh = (lc', Ok tt) /\
    Legacy.calls lc'
    = Legacy.calls legacy_fresh ++
      legacy_fetches
        (Legacy.is_true (Legacy.getattr "connected" legacy_fresh))
        (Legacy.user legacy_fresh) (Legacy.password legacy_fresh) /\
    Legacy.getattr "connected" lc' = Some (VBool true) /\
    Legacy.getattr "power" lc' = Some (VBool (SystemStatus.power tv_system)).
Proof.
  apply (legacy_complete_cycle tv_device legacy_fresh tv_video tv_sources
           tv_outputs tv_system); try reflexivity.
  intros _. split; reflexivity.
Defined.

(** X16.  Empty name arrays never overwrite: after a complete cycle of
    the alternate coordinator [outputs_names] holds the output status's
    names if there are any, else the video status's names if there are
    any, else the value it had before the cycle. *)
Theorem legacy_names_survive_empty_answers dev lc vs ss os sy :
  (Legacy.is_true (Legacy.getattr "connected" lc) = false ->
   Device.on_connect dev (Legacy.user lc) (Legacy.password lc) = Ok tt /\
   is_ok (Device.on_get_status dev) = true) ->
  Device.on_get_video_status dev = Ok vs ->
  Device.on_get_source_status dev = Ok ss ->
  Device.on_get_output_status dev = Ok os ->
  Device.on_get_system_status dev = Ok sy ->
  Legacy.getattr "outputs_names" (fst (Legacy._async_update_data dev lc))
  = if truthy (OutputStatus.output_names os)
    then Some (VStrs (OutputStatus.output_names os))
    else if truthy (VideoStatus.output_names vs)
    then Some (VStrs (VideoStatus.output_names vs))
    else Legacy.getattr "outputs_names" lc.
Proof.
  intros Hfirst Hvs Hss Hos Hsy.
  destruct (legacy_complete_cycle_run dev lc vs ss os sy Hfirst Hvs Hss Hos Hsy)
    as (lc0 & _ & _ & Hnames & ->).
  cbn [fst].
  destruct (update_system_status_touches dev
    (fst (Legacy.async_update_output_status dev
       (fst (Legacy.async_update_source_status dev
          (fst (Legacy.async_update_video_status dev lc0)))))))
    as (_ & _ & _ & _ & ->); [|decide_elem].
  rewrite (proj2 (proj2 (proj2
             (update_output_status_answers dev _ os Hos)))).
  destruct (update_source_status_touches dev
    (fst (Legacy.async_update_video_status dev lc0)))
    as (_ & _ & _ & _ & ->); [|decide_elem].
  rewrite (proj2 (proj2 (proj2
             (update_video_status_answers dev _ vs Hvs)))).
  by rewrite Hnames.
Qed.

(** X16, on a device that reports no output name, after a first cycle on
    [tv_device]: the names of the first cycle stay. *)
Lemma legacy_names_survive_on_silent_device :
  Legacy.getattr "outputs_names"
    (fst (Legacy._async_update_data silent_names_device legacy_after_tv))
  = if truthy (OutputStatus.output_names silent_outputs)
    then Some (VStrs (OutputStatus.output_names silent_outputs))
    else if truthy (VideoStatus.output_names silent_video)
    then Some (VStrs (VideoStatus.output_names silent_video))
    else Legacy.getattr "outputs_names" legacy_after_tv.
Proof.
  apply (legacy_names_survive_empty_answers silent_names_device
           legacy_after_tv silent_video tv_sources silent_outputs tv_system);
    try reflexivity.
  intros H. vm_compute in H. discriminate H.
Defined.

(** X17.  A command of the alternate coordinator whose first client call
    fails: [async_output_turn_on] (and the entity's [async_turn_on], which
    calls it) does not make the CAT call after the HDMI call raised; a
    client error is swallowed and one refresh is requested, any other
    exception leaves the command and no refresh is requested. *)
Theorem legacy_failed_command dev output lc e :
  Device.on_command dev (set_output_stream output true) = Raise e ->
  let run := LegacyInfo.JtechEntity.async_turn_on dev output lc in
  Legacy.calls (fst run) = Legacy.calls lc ++ [set_output_stream output true] /\
  Legacy.attrs (fst run) = Legacy.attrs lc /\
  (if Legacy.is_JtechError e
   then snd run = Ok tt /\
        Legacy.refresh_requests (fst run) = S (Legacy.refresh_requests lc)
   else snd run = Raise e /\
        Legacy.refresh_requests (fst run) = Legacy.refresh_requests lc).
Proof.
  intros Hfail. destruct lc as [u p attrs ks rr].
  unfold LegacyInfo.JtechEntity.async_turn_on, Legacy.async_output_turn_on,
    Legacy.catch_jtechdigital_errors, Legacy.client_call,
    Legacy.async_request_refresh, try_except, bind, modify, lift, ret, raise.
  cbn [Legacy.log_call Legacy.user Legacy.password Legacy.attrs Legacy.calls
       Legacy.refresh_requests].
  rewrite Hfail. destruct e; simpl; by repeat split.
Qed.

(** X17, on a device whose HDMI stream command fails. *)
Lemma legacy_failed_command_on_failing_stream_device :
  let run :=
    LegacyInfo.JtechEntity.async_turn_on failing_stream_device 1 legacy_fresh in
  Legacy.calls (fst run)
  = Legacy.calls legacy_fresh ++ [set_output_stream 1 true] /\
  Legacy.attrs (fst run) = Legacy.attrs legacy_fresh /\
  (if Legacy.is_JtechError JtechError
   then snd run = Ok tt /\
        Legacy.refresh_requests (fst run)
        = S (Legacy.refresh_requests legacy_fresh)
   else snd run = Raise JtechError /\
        Legacy.refresh_requests (fst run)
        = Legacy.refresh_requests legacy_fresh).
Proof.
  apply (legacy_failed_command failing_stream_device 1 legacy_fresh JtechError).
  reflexivity.
Defined.

Lemma bind_never_Ok {A B} (m : result A) (f : A -> result B) :
  (forall a, is_ok (f a) = false) -> is_ok (m ≫= f) = false.
Proof. intros Hf. destruct m as [a|e]; simpl; [apply Hf|done]. Qed.

(** X18.  [get_output_info] of the alternate coordinator never returns:
    whatever the state, the output number and the answer of
    [validate_output], the call raises (at the latest [NameError], on the
    misspelt index of its seventh argument); so does [_output_info] of the
    entity. *)
Theorem legacy_output_info_never_returns validate_output output lc :
  is_ok (LegacyInfo.get_output_info validate_output output lc) = false /\
  is_ok (LegacyInfo.JtechEntity._output_info validate_output output lc) = false.
Proof.
  assert (H : is_ok (LegacyInfo.get_output_info validate_output output lc)
              = false).
  { unfold LegacyInfo.get_output_info.
    repeat (apply bind_never_Ok; intros ?). reflexivity. }
  by split.
Qed.

Lemma positions_loop_unrolled source l : forall start acc,
  foldl (fun outputs '(_output, _source) =>
           if Z.eqb _source source
           then outputs ++ [Z.of_nat _output]
           else outputs)
        acc (enumerate_from start l)
  = acc ++ positions_from source start l.
Proof.
  induction l as [|x rest IH]; intros start acc; simpl.
  - by rewrite app_nil_r.
  - destruct (Z.eqb x source); rewrite IH; [|done]. by rewrite <- app_assoc.
Qed.

Lemma positions_of_unrolled source l :
  LegacyInfo.positions_of source l = positions_from source 0 l.
Proof.
  unfold LegacyInfo.positions_of, enumerate. apply positions_loop_unrolled.
Qed.

Lemma positions_from_bounds source l : forall start,
  Forall (fun x => (Z.of_nat start <= x < Z.of_nat (start + length l))%Z)
         (positions_from source start l).
Proof.
  induction l as [|x rest IH]; intros start; simpl; [constructor|].
  assert (Hrest : Forall (fun y => (Z.of_nat start <= y
                                    < Z.of_nat (start + S (length rest)))%Z)
                         (positions_from source (S start) rest)).
  { eapply Forall_impl; [apply IH|]. simpl. intros y Hy. lia. }
  destruct (Z.eqb x source); [|done]. constructor; [lia|done].
Qed.

Lemma positions_from_sorted source l : forall start,
  StronglySorted Z.lt (positions_from source start l).
Proof.
  induction l as [|x rest IH]; intros start; simpl; [constructor|].
  destruct (Z.eqb x source); [|apply IH]. constructor; [apply IH|].
  eapply Forall_impl; [apply (positions_from_bounds source rest (S start))|].
  simpl. intros y Hy. lia.
Qed.

Lemma positions_from_elem source l : forall start x,
  x ∈ positions_from source start l <->
  exists p, l !! p = Some source /\ x = Z.of_nat (start + p).
Proof.
  induction l as [|y rest IH]; intros start x; simpl.
  - split; [by intros ?%elem_of_nil|by intros (p & ? & _)].
  - destruct (Z.eqb_spec y source) as [->|Hne].
    + rewrite elem_of_cons, IH. split.
      * intros [->|(p & Hp & ->)].
        -- exists 0. split; [done|]. f_equal. lia.
        -- exists (S p). split; [done|]. f_equal. lia.
      * intros ([|p] & Hp & ->).
        -- left. f_equal. lia.
        -- right. exists p. split; [done|]. f_equal. lia.
    + rewrite IH. split.
      * intros (p & Hp & ->). exists (S p). split; [done|]. f_equal. lia.
      * intros ([|p] & Hp & ->).
        -- simpl in Hp. congruence.
        -- exists p. split; [done|]. f_equal. lia.
Qed.

Lemma attr_ints_Ok name lc l :
  LegacyInfo.attr_ints name lc = Ok l ->
  Legacy.getattr name lc = Some (VInts l).
Proof.
  unfold LegacyInfo.attr_ints.
  destruct (Legacy.getattr name lc) as [[]|]; try discriminate.
  by intros [= ->].
Qed.

(** X19.  When [get_source_info] of the alternate coordinator returns,
    the source number passed validation and [outputs] lists, in
    increasing order, exactly the positions (from 0) at which
    [outputs_sources] holds that source number. *)
Theorem legacy_source_info_outputs validate_source source lc info :
  LegacyInfo.get_source_info validate_source source lc = Ok info ->
  validate_source source = Ok tt /\
  exists l,
    Legacy.getattr "outputs_sources" lc = Some (VInts l) /\
    (forall x, x ∈ SourceInfo.outputs info <->
       exists p : nat, l !! p = Some source /\ x = Z.of_nat p) /\
    StronglySorted Z.lt (SourceInfo.outputs info) /\
    Forall (fun x => (0 <= x < Z.of_nat (length l))%Z)
           (SourceInfo.outputs info).
Proof.
  unfold LegacyInfo.get_source_info. intros H.
  apply bind_Ok in H as ([] & Hvalid & H).
  apply bind_Ok in H as (l & Hl%attr_ints_Ok & H).
  repeat (apply bind_Ok in H as (? & _ & H)).
  injection H as <-. cbn [SourceInfo.outputs].
  split; [done|]. exists l. split; [done|].
  rewrite positions_of_unrolled. split; [|split].
  - intros y. apply positions_from_elem.
  - apply positions_from_sorted.
  - eapply Forall_impl; [apply positions_from_bounds|]. simpl. intros y Hy.
    lia.
Qed.

(** X19, for source 1 after a first cycle on [tv_device]. *)
Lemma legacy_source_info_outputs_after_tv :
  accept_all 1 = Ok tt /\
  exists l,
    Legacy.getattr "outputs_sources" legacy_after_tv = Some (VInts l) /\
    (forall x, x ∈ SourceInfo.outputs (SourceInfo.mk [0%Z] "Blu-ray" true 1 false)
       <-> exists p : nat, l !! p = Some 1%Z /\ x = Z.of_nat p) /\
    StronglySorted Z.lt
      (SourceInfo.outputs (SourceInfo.mk [0%Z] "Blu-ray" true 1 false)) /\
    Forall (fun x => (0 <= x < Z.of_nat (length l))%Z)
           (SourceInfo.outputs (SourceInfo.mk [0%Z] "Blu-ray" true 1 false)).
Proof.
  apply (legacy_source_info_outputs accept_all 1 legacy_after_tv).
  vm_compute. reflexivity.
Defined.

(** X20.  The two coordinators number the inverse lookup in opposite
    ways: for the same fetched selection, the alternate coordinator lists
    position [p] under source number [n] exactly when the loaded
    coordinator lists output number [p + 1] under list position [n]. *)
Theorem coordinators_disagree_on_numbering (n : nat) selected_sources :
  LegacyInfo.positions_of (Z.of_nat n) selected_sources
  = (fun x => (x - 1)%Z) <$> collect_outputs n selected_sources.
Proof.
  rewrite positions_of_unrolled, collect_outputs_unrolled.
  generalize 0. induction selected_sources as [|v rest IH]; intros start;
    simpl; [done|].
  destruct (Z.eqb v (Z.of_nat n)); simpl; rewrite IH; [|done].
  f_equal. lia.
Qed.

(** * The media player entities *)

Lemma enumerate_from_lookup {A} (l : list A) : forall start i,
  enumerate_from start l !! i = (fun x => (start + i, x)) <$> l !! i.
Proof.
  induction l as [|x rest IH]; intros start [|i]; simpl; try done.
  - by rewrite Nat.add_0_r.
  - rewrite IH. by rewrite Nat.add_succ_comm.
Qed.

Lemma enumerate_from_length {A} (l : list A) : forall start,
  length (enumerate_from start l) = length l.
Proof. induction l as [|x rest IH]; intros start; simpl; [done|]. by rewrite IH. Qed.

Lemma py_index_Z_nat {A} (l : list A) (i : nat) :
  py_index_Z l (Z.of_nat i + 1 - 1) = py_index l i.
Proof.
  unfold py_index_Z.
  replace (Z.of_nat i + 1 - 1)%Z with (Z.of_nat i) by lia.
  destruct (Z.ltb_spec (Z.of_nat i) 0); [lia|].
  destruct (Z.ltb_spec (Z.of_nat i) 0); [lia|]. by rewrite Nat2Z.id.
Qed.

(** X21.  The players [async_setup_entry] creates are numbered from 1 in
    the order of [coordinator.outputs], carry the entry's options, and
    each reads back its own element of the list; the master comes last. *)
Theorem setup_players_index_their_output entry_options c outs :
  outputs c = Some outs ->
  exists players,
    MediaPlayer.async_setup_entry entry_options c
    = Ok ((MediaPlayer.Player <$> players) ++
          [MediaPlayer.MasterPlayer entry_options]) /\
    length players = length outs /\
    forall i p, players !! i = Some p ->
      MediaPlayer._output_index p = (Z.of_nat i + 1)%Z /\
      MediaPlayer.options p = entry_options /\
      exists o, outs !! i = Some o /\ MediaPlayer._get_output_info p c = Ok o.
Proof.
  intros Houts.
  exists ((fun '(output_idx, _) =>
             MediaPlayer.mk (Z.of_nat output_idx + 1) entry_options)
            <$> enumerate outs).
  split; [|split].
  - unfold MediaPlayer.async_setup_entry. rewrite Houts. do 2 f_equal.
    rewrite <- list_fmap_compose. apply list_fmap_ext. by intros _ [? ?] _.
  - rewrite length_fmap. apply enumerate_from_length.
  - intros i p. rewrite list_lookup_fmap. unfold enumerate.
    rewrite enumerate_from_lookup.
    destruct (outs !! i) as [o|] eqn:Ho; simpl; [|done].
    intros [= <-]. simpl. repeat split. exists o. split; [done|].
    unfold MediaPlayer._get_output_info, py_subscript. rewrite Houts. simpl.
    rewrite py_index_Z_nat. unfold py_index. by rewrite Ho.
Qed.

(** X21, after a first cycle on [tv_device]. *)
Lemma setup_players_after_tv :
  exists players,
    MediaPlayer.async_setup_entry ∅ after_tv
    = Ok ((MediaPlayer.Player <$> players) ++ [MediaPlayer.MasterPlayer ∅]) /\
    length players = length tv_reconciled_outputs /\
    forall i p, players !! i = Some p ->
      MediaPlayer._output_index p = (Z.of_nat i + 1)%Z /\
      MediaPlayer.options p = ∅ /\
      exists o, tv_reconciled_outputs !! i = Some o /\
                MediaPlayer._get_output_info p after_tv = Ok o.
Proof.
  apply (setup_players_index_their_output ∅ after_tv tv_reconciled_outputs).
  vm_compute. reflexivity.
Defined.

Lemma output_state_false self o :
  MediaPlayer._get_output_state self o = false ->
  truthy_value (MediaPlayer._get_cat_stream_toggle self) = true /\
  truthy_value (MediaPlayer._get_hdmi_stream_toggle self) = true.
Proof.
  unfold MediaPlayer._get_output_state.
  by destruct (truthy_value (MediaPlayer._get_cat_stream_toggle self)),
    (truthy_value (MediaPlayer._get_hdmi_stream_toggle self)),
    (OutputInfo.cat_connected o), (OutputInfo.cat_enabled o),
    (OutputInfo.connected o), (OutputInfo.enabled o).
Qed.

(** X22.  [_get_output_state] answers [False] only when both stream
    toggles are set and one of the four link and stream flags of the
    output is false; with at most one toggle set it answers [True]
    whatever the flags are. *)
Theorem output_state_off_needs_both_toggles self o :
  MediaPlayer._get_output_state self o = false <->
  truthy_value (MediaPlayer._get_cat_stream_toggle self) = true /\
  truthy_value (MediaPlayer._get_hdmi_stream_toggle self) = true /\
  OutputInfo.cat_connected o && OutputInfo.cat_enabled o
  && OutputInfo.connected o && OutputInfo.enabled o = false.
Proof.
  unfold MediaPlayer._get_output_state.
  destruct (truthy_value (MediaPlayer._get_cat_stream_toggle self)),
    (truthy_value (MediaPlayer._get_hdmi_stream_toggle self)),
    (OutputInfo.cat_connected o), (OutputInfo.cat_enabled o),
    (OutputInfo.connected o), (OutputInfo.enabled o); simpl; intuition congruence.
Qed.

(** X23.  The [state] property never reports "unavailable".  When the
    player's output cannot be read it raises what reading it raised.
    When [_get_output_state] says no (which takes both stream toggles) it
    is "off".  Otherwise the routed source is read: when that read raises
    (a source number past the list, or no source list) [state] raises the
    same, else it is "playing" or "on" as the source is active or not. *)
Theorem player_state_never_unavailable self c :
  match MediaPlayer._get_output_info self c with
  | Raise e => MediaPlayer.state self c = Raise e
  | Ok o =>
      if MediaPlayer._get_output_state self o then
        match py_subscript (sources c) (OutputInfo.source o - 1) with
        | Raise e => MediaPlayer.state self c = Raise e
        | Ok info =>
            MediaPlayer.state self c
            = Ok (if SourceInfo.active info then STATE_PLAYING else STATE_ON)
        end
      else
        MediaPlayer.state self c = Ok STATE_OFF /\
        truthy_value (MediaPlayer._get_cat_stream_toggle self) = true /\
        truthy_value (MediaPlayer._get_hdmi_stream_toggle self) = true
  end /\
  MediaPlayer.state self c <> Ok STATE_UNAVAILABLE.
Proof.
  unfold MediaPlayer.state, MediaPlayer._get_source_info.
  destruct (MediaPlayer._get_output_info self c) as [o|e] eqn:Ho; simpl;
    [|done].
  unfold truthy_instance. cbn [andb].
  destruct (MediaPlayer._get_output_state self o) eqn:Hstate.
  - destruct (py_subscript (sources c) (OutputInfo.source o - 1))
      as [info|e]; simpl; [|done].
    by destruct (SourceInfo.active info).
  - by apply output_state_false in Hstate as (? & ?).
Qed.

(** X24.  The [source] property reads [OutputInfo.source] as a number
    counted from 1: a routed source between 1 and the length of the source
    list gives the name at that position; 0 wraps round to the last source
    of the list; a number past the list raises [IndexError]. *)
Theorem player_source_counts_from_one self c srcs o :
  sources c = Some srcs ->
  MediaPlayer._get_output_info self c = Ok o ->
  let v := OutputInfo.source o in
  (forall info, (1 <= v)%Z -> srcs !! Z.to_nat (v - 1) = Some info ->
     MediaPlayer.source self c = Ok (Some (SourceInfo.name info))) /\
  (v = 0%Z ->
     MediaPlayer.source self c
     = match last srcs with
       | Some info => Ok (Some (SourceInfo.name info))
       | None => Raise IndexError
       end) /\
  ((Z.of_nat (length srcs) < v)%Z ->
     MediaPlayer.source self c = Raise IndexError).
Proof.
  intros Hsrcs Ho v.
  assert (Hsource : MediaPlayer.source self c
                    = info ← py_index_Z srcs (v - 1);
                      Ok (Some (SourceInfo.name info))).
  { unfold MediaPlayer.source, MediaPlayer._get_source_info.
    rewrite Ho. simpl. rewrite Hsrcs. simpl. subst v.
    by destruct (py_index_Z srcs (OutputInfo.source o - 1)). }
  rewrite Hsource. unfold py_index_Z, py_index. repeat split.
  - intros info Hv Hinfo.
    destruct (Z.ltb_spec (v - 1) 0); [lia|].
    destruct (Z.ltb_spec (v - 1) 0); [lia|]. by rewrite Hinfo.
  - intros ->. rewrite last_lookup.
    replace (0 - 1 <? 0)%Z with true by done.
    destruct srcs as [|s rest]; [done|].
    set (n := length (s :: rest)).
    assert (0 < n) by (subst n; simpl; lia).
    destruct (Z.ltb_spec (0 - 1 + Z.of_nat n) 0); [lia|].
    replace (Z.to_nat (0 - 1 + Z.of_nat n)) with (pred n) by lia.
    by destruct ((s :: rest) !! pred n).
  - intros Hv.
    destruct (Z.ltb_spec (v - 1) 0); [lia|].
    destruct (Z.ltb_spec (v - 1) 0); [lia|].
    rewrite lookup_ge_None_2; [done|lia].
Qed.

(** X24, for the player of output 2 after a first cycle on [tv_device]:
    the output routes source 0 and the player shows the last source. *)
Lemma player_source_after_tv :
  let v := 0%Z in
  (forall info, (1 <= v)%Z ->
     tv_reconciled_sources !! Z.to_nat (v - 1) = Some info ->
     MediaPlayer.source (plain_player 2) after_tv
     = Ok (Some (SourceInfo.name info))) /\
  (v = 0%Z ->
     MediaPlayer.source (plain_player 2) after_tv = Ok (Some "Game")) /\
  ((Z.of_nat (length tv_reconciled_sources) < v)%Z ->
     MediaPlayer.source (plain_player 2) after_tv = Raise IndexError).
Proof.
  apply (player_source_counts_from_one (plain_player 2) after_tv
           tv_reconciled_sources
           (OutputInfo.mk 0 "TV2" "CAT2" true false true false 0 false));
    vm_compute; reflexivity.
Defined.

Lemma select_first_run dev self nm srcs : forall start c,
  _client c = true ->
  MediaPlayer.select_first dev self nm (enumerate_from start srcs) c
  = match list_find (fun s => SourceInfo.name s = nm) srcs with
    | Some (k, _) =>
        let command :=
          set_video_source (MediaPlayer._output_index self)
            (Z.of_nat (start + k) + 1) in
        (log_call command c,
         match Device.on_command dev command with
         | Ok _ => Ok tt
         | Raise e => Raise e
         end)
    | None => (c, Ok tt)
    end.
Proof.
  induction srcs as [|s rest IH]; intros start c Hclient; [done|].
  cbn [enumerate_from MediaPlayer.select_first list_find].
  destruct (String.eqb_spec (SourceInfo.name s) nm) as [Heq|Hne].
  - rewrite decide_True by done. cbv zeta. rewrite Nat.add_0_r.
    unfold async_select_source, client_call, bind, get, modify, lift, ret.
    rewrite Hclient.
    by destruct (Device.on_command dev _).
  - rewrite decide_False by done. rewrite IH by done.
    destruct (list_find _ rest) as [[k y]|]; [|done].
    cbn [fmap option_fmap option_map prod_map fst snd id].
    by rewrite Nat.add_succ_comm.
Qed.

(** X25.  [async_select_source] of a player, once the client exists:
    the first source of the list carrying the name is selected for the
    player's own output by its position plus one, with one client call,
    and a refresh is requested when that call answers; when it raises,
    the exception comes out and no refresh is requested.  A name that no
    source carries makes no client call and requests a refresh. *)
Theorem select_source_picks_first_match dev self nm w srcs :
  sources (MediaPlayer.coordinator w) = Some srcs ->
  _client (MediaPlayer.coordinator w) = true ->
  let c := MediaPlayer.coordinator w in
  let run := MediaPlayer.async_select_source dev self nm w in
  let c' := MediaPlayer.coordinator (fst run) in
  match list_find (fun s => SourceInfo.name s = nm) srcs with
  | Some (k, _) =>
      let command :=
        set_video_source (MediaPlayer._output_index self) (Z.of_nat k + 1) in
      calls c' = calls c ++ [command] /\
      match Device.on_command dev command with
      | Ok _ => snd run = Ok tt /\ refresh_requests c' = S (refresh_requests c)
      | Raise e => snd run = Raise e /\ refresh_requests c' = refresh_requests c
      end
  | None =>
      calls c' = calls c /\ snd run = Ok tt /\
      refresh_requests c' = S (refresh_requests c)
  end.
Proof.
  destruct w as [c slept]. cbn [MediaPlayer.coordinator].
  intros Hsrcs Hclient. cbv zeta.
  cbv beta iota delta [MediaPlayer.async_select_source bind get
                       MediaPlayer.on_coordinator MediaPlayer.coordinator
                       MediaPlayer.slept].
  rewrite Hsrcs. unfold enumerate. rewrite select_first_run by done.
  destruct (list_find _ srcs) as [[k y]|]; cbv zeta; [|done].
  by destruct (Device.on_command dev _).
Qed.

(** X25, selecting "Game" on the player of output 1 after a first cycle
    on [tv_device]. *)
Lemma select_source_game_after_tv :
  let w := MediaPlayer.mk_world after_tv [] in
  let c := MediaPlayer.coordinator w in
  let run := MediaPlayer.async_select_source tv_device (plain_player 1)
               "Game" w in
  let c' := MediaPlayer.coordinator (fst run) in
  match list_find (fun s => SourceInfo.name s = "Game") tv_reconciled_sources
  with
  | Some (k, _) =>
      let command := set_video_source 1 (Z.of_nat k + 1) in
      calls c' = calls c ++ [command] /\
      match Device.on_command tv_device command with
      | Ok _ => snd run = Ok tt /\ refresh_requests c' = S (refresh_requests c)
      | Raise e => snd run = Raise e /\ refresh_requests c' = refresh_requests c
      end
  | None =>
      calls c' = calls c /\ snd run = Ok tt /\
      refresh_requests c' = S (refresh_requests c)
  end.
Proof.
  apply (select_source_picks_first_match tv_device (plain_player 1) "Game"
           (MediaPlayer.mk_world after_tv []) tv_reconciled_sources);
    vm_compute; reflexivity.
Defined.

(** ** What the commands of a player send *)

Lemma player_adds_ret {A} P (a : A) : player_adds P (ret a).
Proof. intros w. simpl. split; [done|]. exists []. by rewrite app_nil_r. Qed.

Lemma player_adds_bind {A B} P (m : prog MediaPlayer.world A)
    (k : A -> prog MediaPlayer.world B) :
  player_adds P m -> (forall a, player_adds P (k a)) ->
  player_adds P (bind m k).
Proof.
  intros Hm Hk w. specialize (Hm w). unfold bind.
  destruct (m w) as [w1 [a|e]]; simpl in Hm; [|exact Hm].
  destruct Hm as (Houts & new & Hcalls & Hnew).
  destruct (Hk a w1) as (Houts' & new' & Hcalls' & Hnew').
  split; [congruence|]. exists (new ++ new').
  rewrite Hcalls', Hcalls, app_assoc. split; [done|].
  apply Forall_app. split; [done|]. by rewrite <- Houts.
Qed.

Lemma player_adds_when P (b : bool) p :
  player_adds P p -> player_adds P (when b p).
Proof. destruct b; [done|]. intros _. apply player_adds_ret. Qed.

Lemma player_adds_when_false P p : player_adds P (when false p).
Proof. apply player_adds_ret. Qed.

Lemma player_adds_lift {A} P (r : result A) : player_adds P (lift r).
Proof. intros w. simpl. split; [done|]. exists []. by rewrite app_nil_r. Qed.

Lemma player_adds_sleep P delay :
  player_adds P (MediaPlayer.sleep_if_positive delay).
Proof.
  apply player_adds_bind; [apply player_adds_lift|]. intros positive.
  apply player_adds_when. intros w. simpl. split; [done|].
  exists []. by rewrite app_nil_r.
Qed.

Lemma player_adds_refresh P :
  player_adds P (MediaPlayer.on_coordinator async_request_refresh).
Proof.
  intros [c slept]. simpl. split; [done|]. exists []. by rewrite app_nil_r.
Qed.

Lemma player_adds_client_call {A} (P : _ -> call -> Prop) k
    (answer : result A) :
  (forall outs, P outs k) ->
  player_adds P (MediaPlayer.on_coordinator (client_call k answer)).
Proof.
  intros HP [c slept].
  unfold MediaPlayer.on_coordinator, client_call, bind, get, modify, lift,
    raise.
  cbn [MediaPlayer.coordinator MediaPlayer.slept].
  destruct (_client c); cbn [fst MediaPlayer.coordinator].
  - destruct answer; cbn [fst MediaPlayer.coordinator]; (split; [done|]);
      exists [k]; (split; [done|]); by apply Forall_singleton.
  - split; [done|]. exists []. by rewrite app_nil_r.
Qed.

Lemma send_cec_source_run dev self source_command w :
  MediaPlayer._async_send_cec_source dev self source_command w
  = match MediaPlayer._get_output_info self (MediaPlayer.coordinator w) with
    | Ok o =>
        (MediaPlayer.on_coordinator
           (async_send_cec_source dev (OutputInfo.source o) source_command) ;;;
         ret tt) w
    | Raise e => (w, Raise e)
    end.
Proof.
  unfold MediaPlayer._async_send_cec_source. unfold bind at 1.
  unfold MediaPlayer.read.
  by destruct (MediaPlayer._get_output_info self (MediaPlayer.coordinator w)).
Qed.

Lemma send_cec_source_addresses dev self source_command :
  player_adds (addresses self)
    (MediaPlayer._async_send_cec_source dev self source_command).
Proof.
  intros w. cbv zeta. rewrite send_cec_source_run.
  destruct (MediaPlayer._get_output_info self (MediaPlayer.coordinator w))
    as [o|e] eqn:Ho;
    [|cbn [fst]; split; [done|]; exists []; by rewrite app_nil_r].
  assert (Hstep : player_adds
            (fun outs k =>
               outs = outputs (MediaPlayer.coordinator w) ->
               addresses self outs k)
            (MediaPlayer.on_coordinator
               (async_send_cec_source dev (OutputInfo.source o)
                  source_command) ;;; ret tt)).
  { apply player_adds_bind; [|intros; apply player_adds_ret].
    apply player_adds_client_call. intros outs ->. simpl. by exists o. }
  destruct (Hstep w) as (Houts & new & Hcalls & Hnew).
  split; [done|]. exists new. split; [done|].
  eapply Forall_impl; [exact Hnew|]. intros k Hk. by apply Hk.
Qed.

Lemma select_first_addresses dev self nm sources :
  player_adds (addresses self)
    (MediaPlayer.on_coordinator
       (MediaPlayer.select_first dev self nm sources)).
Proof.
  induction sources as [|[source_idx source_info] rest IH];
    cbn [MediaPlayer.select_first].
  - intros [c slept]. simpl. split; [done|]. exists [].
    by rewrite app_nil_r.
  - destruct (String.eqb _ nm); [|exact IH].
    intros [c slept].
    destruct (player_adds_client_call (addresses self)
                (set_video_source (MediaPlayer._output_index self)
                   (Z.of_nat source_idx + 1))
                (Device.on_command dev
                   (set_video_source (MediaPlayer._output_index self)
                      (Z.of_nat source_idx + 1)))
                (fun _ => eq_refl) (MediaPlayer.mk_world c slept))
      as (Houts & new & Hcalls & Hnew).
    revert Houts Hcalls.
    unfold MediaPlayer.on_coordinator, async_select_source, bind.
    cbn [MediaPlayer.coordinator MediaPlayer.slept].
    destruct (client_call _ _ c) as [c1 [b|e]];
      cbn [fst MediaPlayer.coordinator ret]; intros Houts Hcalls;
      (split; [done|]); by exists new.
Qed.

Ltac player_steps :=
  repeat first
    [ apply player_adds_ret
    | apply player_adds_when_false
    | apply player_adds_when
    | apply player_adds_sleep
    | apply player_adds_refresh
    | apply send_cec_source_addresses
    | apply player_adds_client_call; intros; first [reflexivity | exact I]
    | apply player_adds_bind; [|intros ?] ].

(** X26.  Whatever the options and the device's answers, every client
    call a player's commands make is addressed to the player's own output
    ([set_output_stream], [set_output_cat_stream], [send_cec_output],
    [set_video_source]) or is a CEC command for the source its output
    routes in the coordinator's current list; none of the commands touches
    the coordinator's output list. *)
Theorem player_commands_address_own_output dev self nm :
  player_adds (addresses self) (MediaPlayer.async_turn_on dev self) /\
  player_adds (addresses self) (MediaPlayer.async_turn_off dev self) /\
  player_adds (addresses self) (MediaPlayer.async_select_source dev self nm) /\
  player_adds (addresses self) (MediaPlayer.async_volume_up dev self) /\
  player_adds (addresses self) (MediaPlayer.async_volume_down dev self) /\
  player_adds (addresses self) (MediaPlayer.async_volume_mute dev self) /\
  player_adds (addresses self)
    (MediaPlayer.async_media_previous_track dev self) /\
  player_adds (addresses self) (MediaPlayer.async_media_next_track dev self) /\
  player_adds (addresses self) (MediaPlayer.async_media_play dev self) /\
  player_adds (addresses self) (MediaPlayer.async_media_stop dev self) /\
  player_adds (addresses self) (MediaPlayer.async_media_pause dev self).
Proof.
  repeat apply conj.
  - unfold MediaPlayer.async_turn_on. cbv zeta. player_steps.
  - unfold MediaPlayer.async_turn_off. cbv zeta. player_steps.
  - unfold MediaPlayer.async_select_source.
    apply player_adds_bind; [|intros; apply player_adds_refresh].
    intros [c slept].
    destruct (sources c) as [srcs|] eqn:Hsrcs.
    + generalize (select_first_addresses dev self nm (enumerate srcs)
                    (MediaPlayer.mk_world c slept)).
      unfold MediaPlayer.on_coordinator, bind, get.
      cbn [MediaPlayer.coordinator MediaPlayer.slept]. by rewrite Hsrcs.
    + unfold MediaPlayer.on_coordinator, bind, get, raise.
      cbn [MediaPlayer.coordinator MediaPlayer.slept]. rewrite Hsrcs.
      split; [done|]. exists []. by rewrite app_nil_r.
  - unfold MediaPlayer.async_volume_up, MediaPlayer._async_volume_send_cec.
    repeat case_match; player_steps.
  - unfold MediaPlayer.async_volume_down, MediaPlayer._async_volume_send_cec.
    repeat case_match; player_steps.
  - unfold MediaPlayer.async_volume_mute, MediaPlayer._async_volume_send_cec.
    repeat case_match; player_steps.
  - apply send_cec_source_addresses.
  - apply send_cec_source_addresses.
  - apply send_cec_source_addresses.
  - apply send_cec_source_addresses.
  - apply send_cec_source_addresses.
Qed.

Lemma on_coordinator_call_run {A} k (answer : result A) c slept :
  _client c = true ->
  MediaPlayer.on_coordinator (client_call k answer)
    (MediaPlayer.mk_world c slept)
  = (MediaPlayer.mk_world (log_call k c) slept, answer).
Proof.
  intros Hclient.
  unfold MediaPlayer.on_coordinator, client_call, bind, get, modify, lift.
  cbn [MediaPlayer.coordinator MediaPlayer.slept]. rewrite Hclient.
  by destruct answer.
Qed.

Lemma ret_bind {S A B} (a : A) (k : A -> prog S B) s :
  bind (ret a) k s = k a s.
Proof. reflexivity. Qed.

Lemma first_call_extends {A B} (m : prog MediaPlayer.world A)
    (k : A -> prog MediaPlayer.world B) w first :
  (exists rest,
     calls (MediaPlayer.coordinator (fst (m w)))
     = calls (MediaPlayer.coordinator w) ++ first :: rest) ->
  (forall a, player_adds (fun _ _ => True) (k a)) ->
  exists rest,
    calls (MediaPlayer.coordinator (fst (bind m k w)))
    = calls (MediaPlayer.coordinator w) ++ first :: rest.
Proof.
  unfold bind. destruct (m w) as [w1 [a|e]]; cbn [fst]; intros [rest H] Hk;
    [|by exists rest].
  destruct (Hk a w1) as (_ & new & Hcalls & _).
  exists (rest ++ new). rewrite Hcalls, H. by rewrite <- app_assoc.
Qed.

(** X27.  With the output-side CEC toggle off, [async_turn_on] sends no
    CEC command at all, also when the source-side toggle is on: its
    client calls are the two stream commands for its own output.
    [async_turn_off] with the source-side toggle on does send the routed
    source the CEC command 2, as its first client call. *)
Theorem cec_source_toggle_alone dev self w o :
  truthy_value (MediaPlayer._get_cec_output_toggle self) = false ->
  truthy_value (MediaPlayer._get_cec_source_toggle self) = true ->
  _client (MediaPlayer.coordinator w) = true ->
  MediaPlayer._get_output_info self (MediaPlayer.coordinator w) = Ok o ->
  player_adds (fun _ => is_stream_call (MediaPlayer._output_index self))
    (MediaPlayer.async_turn_on dev self) /\
  exists rest,
    calls (MediaPlayer.coordinator (fst (MediaPlayer.async_turn_off dev self w)))
    = calls (MediaPlayer.coordinator w)
      ++ send_cec_source (OutputInfo.source o) 2 :: rest.
Proof.
  intros Hout Hsrc Hclient Ho. split.
  - unfold MediaPlayer.async_turn_on. cbv zeta. rewrite Hout. player_steps.
  - unfold MediaPlayer.async_turn_off. cbv zeta. rewrite Hout, Hsrc.
    cbn [when orb]. rewrite ret_bind.
    apply first_call_extends; [|intros; player_steps].
    rewrite send_cec_source_run, Ho.
    apply first_call_extends; [|intros; player_steps].
    destruct w as [c slept]. cbn [MediaPlayer.coordinator] in *.
    unfold async_send_cec_source. rewrite on_coordinator_call_run by done.
    exists []. by destruct c.
Qed.

(** X27, for a player with the source-side CEC toggle and the HDMI toggle
    set, after a first cycle on [tv_device]. *)
Lemma cec_source_toggle_alone_after_tv :
  player_adds (fun _ => is_stream_call 1)
    (MediaPlayer.async_turn_on tv_device cec_source_player) /\
  exists rest,
    calls (MediaPlayer.coordinator
             (fst (MediaPlayer.async_turn_off tv_device cec_source_player
                     (MediaPlayer.mk_world after_tv []))))
    = calls (MediaPlayer.coordinator (MediaPlayer.mk_world after_tv []))
      ++ send_cec_source 1 2 :: rest.
Proof.
  apply (cec_source_toggle_alone tv_device cec_source_player
           (MediaPlayer.mk_world after_tv [])
           (OutputInfo.mk 1 "TV1" "CAT1" true true true true 0 true));
    vm_compute; reflexivity.
Defined.

(** ** The master player *)

(** X28.  After a cycle that returned, the master player's state follows
    the status fetch of that cycle: "on" or "off" as the fetched [power]
    says, and "unavailable" when that one fetch failed. *)
Theorem master_state_follows_status dev c :
  is_ok (snd (_async_update_data dev c)) = true ->
  MediaPlayer.Master.state (async_refresh dev c)
  = Ok match Device.on_get_status dev with
       | Ok status => if Status.power status then STATE_ON else STATE_OFF
       | Raise _ => STATE_UNAVAILABLE
       end.
Proof.
  destruct (_async_update_data dev c) as [c' [d|e]] eqn:Hrun;
    [intros _|discriminate].
  assert (Hdata : data (async_refresh dev c) = Some d).
  { unfold async_refresh. rewrite Hrun. by destruct c'. }
  unfold MediaPlayer.Master.state. rewrite Hdata.
  apply update_data_Ok in Hrun as (-> & _).
  unfold combined_data_of, statuses_of.
  cbn [Statuses.status Statuses.network Statuses.system Statuses.web_details].
  destruct (Device.on_get_status dev) as [status|];
    destruct (Device.on_get_network dev) as [network|];
    destruct (Device.on_get_system_status dev) as [system|];
    destruct (Device.on_get_web_details dev) as [web|];
    cbn [filter_exception combine_status combine_network combine_system
         combine_web_details];
    simplify_map_eq; try done; by destruct (Status.power status).
Qed.

(** X28, on [no_status_device] after a first cycle on [tv_device]. *)
Lemma master_state_without_status :
  MediaPlayer.Master.state (async_refresh no_status_device after_tv)
  = Ok STATE_UNAVAILABLE.
Proof.
  apply (master_state_follows_status no_status_device after_tv).
  vm_compute. reflexivity.
Defined.

(** X29.  The master's [async_turn_on] and [async_turn_off], once the
    client exists, make the one [set_power] call; a refresh is requested
    when the call answers, and when it raises the exception comes out and
    no refresh is requested. *)
Theorem master_power_then_refresh dev c (on : bool) :
  _client c = true ->
  let run := (if on then MediaPlayer.Master.async_turn_on dev
              else MediaPlayer.Master.async_turn_off dev) c in
  calls (fst run) = calls c ++ [set_power on] /\
  match Device.on_command dev (set_power on) with
  | Ok _ =>
      snd run = Ok tt /\ refresh_requests (fst run) = S (refresh_requests c)
  | Raise e =>
      snd run = Raise e /\ refresh_requests (fst run) = refresh_requests c
  end.
Proof.
  intros Hclient. cbv zeta.
  destruct on;
    unfold MediaPlayer.Master.async_turn_on, MediaPlayer.Master.async_turn_off,
      async_power_on, async_power_off, client_call, async_request_refresh,
      bind, get, modify, lift;
    rewrite Hclient;
    by destruct (Device.on_command dev _).
Qed.

(** X29, turning the master on after a first cycle on [tv_device]. *)
Lemma master_power_on_after_tv :
  let run := MediaPlayer.Master.async_turn_on tv_device after_tv in
  calls (fst run) = calls after_tv ++ [set_power true] /\
  match Device.on_command tv_device (set_power true) with
  | Ok _ =>
      snd run = Ok tt /\
      refresh_requests (fst run) = S (refresh_requests after_tv)
  | Raise e =>
      snd run = Raise e /\
      refresh_requests (fst run) = refresh_requests after_tv
  end.
Proof.
  apply (master_power_then_refresh tv_device after_tv true).
  vm_compute. reflexivity.
Defined.
